(** * A resilient outbound HTTP client: rate limiter, classifier, executor
      and retry orchestrator of [pkg/httpclient/client.go].

    The development is a shallow embedding of the Go code.  Go's [int] is a
    64-bit two's-complement integer here, carried by [Z] with its wrap-around
    written out; byte strings and Go strings are [string]; a panic is a value
    of the [go] result type; everything the program waits for (a token, the
    network, the retry delay, the caller's context) is answered by a [World]
    indexed by the attempt number. *)

From Stdlib Require Import ZArith List String Ascii Bool Lia Relations.
Import ListNotations.
Open Scope string_scope.
Open Scope Z_scope.

(** ** Go integers *)

Module GoInt.

Definition bits : Z := 64.
Definition max_int : Z := 2 ^ (bits - 1) - 1.
Definition min_int : Z := - 2 ^ (bits - 1).

(** The value of a signed machine integer after an arithmetic operation
    whose mathematical result is [z]. *)
Definition wrap (z : Z) : Z := (z + 2 ^ (bits - 1)) mod 2 ^ bits - 2 ^ (bits - 1).

Definition in_range (z : Z) : Prop := min_int <= z <= max_int.

(** [attempt++], [attempt+1], [RetryCount+1]. *)
Definition incr (z : Z) : Z := wrap (z + 1).

End GoInt.

(** ** Results of Go computations that may panic or block for ever *)

Inductive go (A : Type) : Type :=
| Ret (a : A)
| Panic (msg : string)
| Block.

Arguments Ret {A} a.
Arguments Panic {A} msg.
Arguments Block {A}.

Definition go_bind {A B : Type} (m : go A) (k : A -> go B) : go B :=
  match m with
  | Ret a => k a
  | Panic msg => Panic msg
  | Block => Block
  end.

Notation "x <- m ;; k" := (go_bind m (fun x => k))
  (at level 61, m at next level, right associativity).

(** ** Data model *)

(** [time.Duration]: nanoseconds. *)
Definition second : Z := 1000000000.

Record Config : Type := mkConfig {
  BaseURL : string;
  Timeout : Z;
  RetryCount : Z;
  RetryDelay : Z;
  RateLimit : Z  (* requests per second *)
}.

Record HTTPError : Type := mkHTTPError {
  Method : string;
  URL : string;
  StatusCode : Z;
  Message : string;
  Duration : Z
}.

(** The two values [ctx.Err()] can take once [ctx.Done()] is closed. *)
Inductive ctxErr : Type := Canceled | DeadlineExceeded.

(** The dynamic type of an [error] value flowing through the client.
    - [EHTTP]: a pointer to an [HTTPError];
    - [EWrap p c]: [fmt.Errorf(p + ": %w", err)] around a library error
      whose text is [c];
    - [ECtx]: the context's own error;
    - [EExhausted n last]:
      [fmt.Errorf("request failed after %d attempts: %w", n, last)]. *)
#[warnings="-register-all"]
Inductive error : Type :=
| EHTTP (he : HTTPError)
| EWrap (prefix : string) (cause : string)
| ECtx (r : ctxErr)
| EExhausted (attempts : Z) (last : option error).

Definition StatusTooManyRequests : Z := 429.
Definition StatusRequestTimeout : Z := 408.

(** ** Error classifier *)

(** The method [IsTemporary] of [HTTPError]. *)
Definition IsTemporary (he : HTTPError) : bool :=
  (500 <=? StatusCode he)
  || (StatusCode he =? StatusTooManyRequests)
  || (StatusCode he =? StatusRequestTimeout).

(** [isRetryableError]: the type assertion to a pointer to [HTTPError]
    succeeds for [EHTTP] only; every other error falls through to [return true]. *)
Definition isRetryableError (err : error) : bool :=
  match err with
  | EHTTP httpErr =>
      (500 <=? StatusCode httpErr)
      || (StatusCode httpErr =? StatusTooManyRequests)
      || (StatusCode httpErr =? StatusRequestTimeout)
  | _ => true
  end.

(** The policy in the words of the specification: retryable iff the status
    is 5xx (500-599), 429, 408, or 0 (no response was received). *)
Definition policy_retryable (status : Z) : bool :=
  ((500 <=? status) && (status <=? 599))
  || (status =? 429) || (status =? 408) || (status =? 0).

(** ** URL building *)

(** [buildURL]: indexing [path[0]] of an empty string panics. *)
Definition buildURL (cfg : Config) (path : string) : go string :=
  if String.eqb (BaseURL cfg) "" then Ret path
  else
    match path with
    | EmptyString => Panic "runtime error: index out of range [0] with length 0"
    | String c _ =>
        let path := if negb (Ascii.eqb c "/"%char) then "/" ++ path else path in
        Ret (BaseURL cfg ++ path)
    end.

(** The join in the words of the specification: base URL and path with
    exactly one separating slash whether or not the path starts with one;
    an empty base URL leaves the path as it is. *)
Definition dropLeadingSlash (path : string) : string :=
  match path with
  | String c rest => if Ascii.eqb c "/"%char then rest else path
  | EmptyString => path
  end.

Definition spec_fullURL (base path : string) : string :=
  if String.eqb base "" then path else base ++ "/" ++ dropLeadingSlash path.

(** ** Token bucket: a buffered channel of [struct{}]

    Only the number of buffered elements matters.  The channel is shared by
    the refill goroutine and every call in flight, so its evolution is a
    transition system; each transition is one atomic channel operation. *)

Record chan : Type := mkChan {
  cap : Z;
  len : Z
}.

(** [make(chan struct{}, size)] *)
Definition make_chan (size : Z) : go chan :=
  if size <? 0 then Panic "makechan: size out of range" else Ret (mkChan size 0).

(** A send, respectively a receive, that can proceed at once; [None] when
    the operation would have to wait. *)
Definition send (c : chan) : option chan :=
  if len c <? cap c then Some (mkChan (cap c) (len c + 1)) else None.

Definition recv (c : chan) : option chan :=
  if 0 <? len c then Some (mkChan (cap c) (len c - 1)) else None.

(** [for i := 0; i < RateLimit; i++ { rateLimiter <- struct{}{} }], with
    [remaining] the number of iterations still to run ([RateLimit - i]);
    the send is a blocking one. *)
Fixpoint fill (remaining : nat) (c : chan) : go chan :=
  match remaining with
  | O => Ret c
  | S remaining' =>
      match send c with
      | Some c' => fill remaining' c'
      | None => Block
      end
  end.

(** The refill goroutine's first statement,
    [time.NewTicker(time.Second / time.Duration(RateLimit))]: the ticker's
    period, or the panic of the division or of [NewTicker]. *)
Definition refillInterval (rateLimit : Z) : go Z :=
  if rateLimit =? 0 then Panic "runtime error: integer divide by zero"
  else
    let d := Z.quot second rateLimit in
    if d <=? 0 then Panic "non-positive interval for NewTicker" else Ret d.

(** One tick of the refill goroutine:
    [select { case rateLimiter <- struct{}{}: default: }]. *)
Definition refillTick (c : chan) : chan :=
  match send c with
  | Some c' => c'
  | None => c
  end.

Record httpClient : Type := mkClient {
  config : Config;
  rateLimiter : chan
}.

(** [New]: the value returned to the caller.  The [go func() {...}()]
    statement only starts the refill goroutine, whose steps are
    [refillInterval] and then [refillTick] for ever. *)
Definition New (cfg : Config) : go httpClient :=
  ch <- make_chan (RateLimit cfg) ;;
  ch' <- fill (Z.to_nat (RateLimit cfg)) ch ;;
  Ret (mkClient cfg ch').

(** Transitions of the shared token pool: a refill tick, an acquisition by
    some call, and a tick handed directly to a receiver that is already
    waiting on the empty channel. *)
Inductive limiter_step : chan -> chan -> Prop :=
| step_tick (c : chan) : limiter_step c (refillTick c)
| step_acquire (c c' : chan) : recv c = Some c' -> limiter_step c c'
| step_handoff (c : chan) : len c = 0 -> limiter_step c c.

Definition reachable (c0 c : chan) : Prop :=
  clos_refl_trans_n1 chan limiter_step c0 c.

(** The bounds every transition of the pool keeps. *)
Definition within (c : chan) : Prop := 0 <= len c <= cap c.

(** [k] acquisitions in a row with no refill in between. *)
Fixpoint acquireN (k : nat) (c : chan) : option chan :=
  match k with
  | O => Some c
  | S k' =>
      match recv c with
      | Some c' => acquireN k' c'
      | None => None
      end
  end.

(** ** The libraries and the environment of a call *)

(** The library functions the executor calls, for a request payload type
    [B] and a destination type [V]:
    - [marshal]: [json.Marshal], the bytes or the error's text;
    - [newRequest]: [http.NewRequestWithContext] on a method and a URL, the
      error's text if it fails;
    - [unmarshal]: [json.Unmarshal] of the bytes into a destination holding
      [v]: what the destination holds afterwards, and the error's text if
      it fails. *)
Class Lib (B V : Type) : Type := {
  marshal : B -> string + string;
  newRequest : string -> string -> option string;
  unmarshal : string -> V -> V * option string
}.

(** What a [select] against [ctx.Done()] resolves to. *)
Inductive wait : Type :=
| Ready
| CtxDone (r : ctxErr).

(** [io.ReadAll(resp.Body)] *)
Inductive readResult : Type :=
| ReadOk (respBody : string)
| ReadErr (cause : string).

(** [hc.client.Do(req)] followed by the read of the body, with the
    measured duration. *)
Inductive doResult : Type :=
| DoErr (cause : string) (duration : Z)
| DoResp (status : Z) (body : readResult) (duration : Z).

(** The environment of one logical call, indexed by the loop variable
    [attempt]: the outcome of the token wait, of the network exchange and of
    the inter-attempt wait. *)
Record World : Type := mkWorld {
  w_token : Z -> wait;
  w_do : Z -> doResult;
  w_delay : Z -> wait
}.

(** The four logging call sites of the orchestrator. *)
Inductive logEntry : Type :=
| LogSuccess (method url : string) (attempt : Z)
| LogNonRetryable (method url : string) (err : error)
| LogRetrying (method url : string) (attempt : Z) (delay : Z) (err : error)
| LogExhausted (method url : string) (attempts : Z) (lastErr : option error).

(** ** Single-call executor and retry orchestrator *)

Section Client.

Context {B V : Type} {L : Lib B V}.

(** What a call has done so far: the content of the result destination
    ([None] for a nil [result]), the number of executor invocations and
    the log. *)
Record state : Type := mkState {
  dest : option V;
  calls : nat;
  log : list logEntry
}.

Definition logged (e : logEntry) (s : state) : state :=
  mkState (dest s) (calls s) (log s ++ [e])%list.

(** [doRequest]: the returned error ([None] for nil) and the content of
    the result destination afterwards.  [net] is what the network answers
    to this request. *)
Definition doRequest (method url : string) (body : option B)
    (result : option V) (net : doResult) : option error * option V :=
  let bodyReader :=
    match body with
    | Some b =>
        match marshal b with
        | inl bodyBytes => inl (Some bodyBytes)
        | inr cause => inr cause
        end
    | None => inl None
    end in
  match bodyReader with
  | inr cause => (Some (EWrap "failed to marshal request body" cause), result)
  | inl _ =>
      match newRequest method url with
      | Some cause => (Some (EWrap "failed to create request" cause), result)
      | None =>
          match net with
          | DoErr cause duration =>
              (Some (EHTTP (mkHTTPError method url 0 cause duration)), result)
          | DoResp _ (ReadErr cause) _ =>
              (Some (EWrap "failed to read response body" cause), result)
          | DoResp status (ReadOk respBody) duration =>
              if (status <? 200) || (300 <=? status) then
                (Some (EHTTP (mkHTTPError method url status respBody duration)),
                 result)
              else
                match result with
                | Some v =>
                    if 0 <? Z.of_nat (String.length respBody) then
                      match unmarshal respBody v with
                      | (v', Some cause) =>
                          (Some (EWrap "failed to unmarshal response" cause),
                           Some v')
                      | (v', None) => (None, Some v')
                      end
                    else (None, result)
                | None => (None, result)
                end
          end
      end
  end.

Variable hc : httpClient.
Variable w : World.
Variables method fullURL : string.
Variable body : option B.

(** The retry loop of [doRequestWithRetry], entered at the loop test with
    the loop variable [attempt] and the local [lastErr].  [fuel] bounds the
    number of loop tests; [None] means the fuel ran out before the loop
    returned.  After the loop, the field [logger.Error(lastErr)] of the last
    log entry is built by calling [lastErr.Error()]: with a nil [lastErr]
    that call panics, before anything is logged or returned. *)
Fixpoint retryLoop (fuel : nat) (attempt : Z) (lastErr : option error)
    (s : state) : option (go (option error * state)) :=
  match fuel with
  | O => None
  | S fuel' =>
      if attempt <=? RetryCount (config hc) then
        match w_token w attempt with
        | CtxDone r => Some (Ret (Some (ECtx r), s))
        | Ready =>
            let '(err, result') :=
              doRequest method fullURL body (dest s) (w_do w attempt) in
            let s1 := mkState result' (S (calls s)) (log s) in
            match err with
            | None =>
                Some (Ret (None,
                           logged (LogSuccess method fullURL (GoInt.incr attempt))
                             s1))
            | Some e =>
                if negb (isRetryableError e) then
                  Some (Ret (Some e, logged (LogNonRetryable method fullURL e) s1))
                else if attempt <? RetryCount (config hc) then
                  let s2 :=
                    logged (LogRetrying method fullURL (GoInt.incr attempt)
                              (RetryDelay (config hc)) e) s1 in
                  match w_delay w attempt with
                  | CtxDone r => Some (Ret (Some (ECtx r), s2))
                  | Ready => retryLoop fuel' (GoInt.incr attempt) (Some e) s2
                  end
                else retryLoop fuel' (GoInt.incr attempt) (Some e) s1
            end
        end
      else
        let attempts := GoInt.incr (RetryCount (config hc)) in
        match lastErr with
        | Some _ =>
            Some (Ret (Some (EExhausted attempts lastErr),
                       logged (LogExhausted method fullURL attempts lastErr) s))
        | None =>
            Some (Panic
                    "runtime error: invalid memory address or nil pointer dereference")
        end
  end.

End Client.

Section PublicMethods.

Context {B V : Type} {L : Lib B V}.

Variable hc : httpClient.
Variable w : World.

(** [doRequestWithRetry]: [None] when the fuel ran out, otherwise a
    panic (of [buildURL], or of the last log entry) or the returned error
    with the final state. *)
Definition doRequestWithRetry (fuel : nat) (method url : string)
    (body : option B) (result : option V)
    : option (go (option error * state)) :=
  match buildURL (config hc) url with
  | Ret fullURL =>
      retryLoop hc w method fullURL body fuel 0 None (mkState result 0 [])
  | Panic msg => Some (Panic msg)
  | Block => Some Block
  end.

Definition Get (fuel : nat) (url : string) (result : option V) :=
  doRequestWithRetry fuel "GET" url None result.

Definition Post (fuel : nat) (url : string) (body : option B) (result : option V) :=
  doRequestWithRetry fuel "POST" url body result.

Definition Put (fuel : nat) (url : string) (body : option B) (result : option V) :=
  doRequestWithRetry fuel "PUT" url body result.

Definition Delete (fuel : nat) (url : string) :=
  doRequestWithRetry fuel "DELETE" url None None.

End PublicMethods.

(** ** Ways an attempt can go, stated on the executor's inputs *)

Section Attempts.

Context {B V : Type} {L : Lib B V}.

(** The request payload, if any, serializes. *)
Definition encodes (body : option B) : Prop :=
  match body with
  | Some b => exists bodyBytes, marshal b = inl bodyBytes
  | None => True
  end.

(** The request payload fails to serialize. *)
Definition serializationFails (body : option B) (cause : string) : Prop :=
  exists b, body = Some b /\ marshal b = inr cause.

(** A response with a 2xx status arrives and its non-empty body fails to
    deserialize into the destination, which holds [v'] afterwards. *)
Definition decodeFails (method url : string) (body : option B)
    (result : option V) (net : doResult) (v' : V) (cause : string) : Prop :=
  encodes body /\ newRequest method url = None /\
  exists status respBody duration v,
    net = DoResp status (ReadOk respBody) duration /\
    200 <= status < 300 /\
    result = Some v /\
    (0 < String.length respBody)%nat /\
    unmarshal respBody v = (v', Some cause).

(** Whatever the destination holds, the executor's attempt against the
    network answer [net] fails with an error the classifier retries. *)
Definition failsRetryably (method url : string) (body : option B)
    (net : doResult) : Prop :=
  forall result : option V,
    exists e result',
      doRequest method url body result net = (Some e, result') /\
      isRetryableError e = true.

End Attempts.

(** ** Concrete instances used to exercise the model *)

Module Demo.

(** Payloads and destinations are strings; the payload ["chan"] stands
    for a value [json.Marshal] rejects, the body ["{"] for bytes
    [json.Unmarshal] rejects. *)
Definition lib : Lib string string := {|
  marshal := fun b =>
    if String.eqb b "chan" then inr "json: unsupported type: chan int" else inl b;
  newRequest := fun _ _ => None;
  unmarshal := fun respBody v =>
    if String.eqb respBody "{" then (v, Some "unexpected end of JSON input")
    else (respBody, None)
|}.

Definition cfg (retryCount rateLimit : Z) : Config :=
  mkConfig "https://api.example.test" (30 * second) retryCount (second / 100) rateLimit.

Definition client (retryCount : Z) : httpClient :=
  mkClient (cfg retryCount 2) (mkChan 2 2).

(** A target that answers every attempt with the same status and body,
    with a token always available and no cancellation. *)
Definition always (status : Z) (respBody : string) : World :=
  mkWorld (fun _ => Ready) (fun _ => DoResp status (ReadOk respBody) 5000000)
          (fun _ => Ready).

(** The caller cancels while the call waits for its first token. *)
Definition cancelledAtToken : World :=
  mkWorld (fun _ => CtxDone Canceled) (fun _ => DoResp 503 (ReadOk "") 5000000)
          (fun _ => Ready).

(** The deadline passes during the first inter-attempt delay. *)
Definition cancelledAtDelay : World :=
  mkWorld (fun _ => Ready) (fun _ => DoResp 503 (ReadOk "") 5000000)
          (fun _ => CtxDone DeadlineExceeded).

End Demo.

(** ** Further vocabulary for the properties of the client *)

Section Outcomes.

Context {B V : Type} {L : Lib B V}.

(** Whatever the destination holds, the executor's attempt against the
    network answer [net] returns nil. *)
Definition succeedsAt (method url : string) (body : option B)
    (net : doResult) : Prop :=
  forall result : option V,
    fst (doRequest method url body result net) = None.

End Outcomes.

(** The errors a call is left with when its loop returns, for retry count
    [R]: nil, the context's error, a CallError the classifier does not
    retry, or the exhaustion error around a failure the classifier retries. *)
Definition terminal (R : Z) (err : option error) : Prop :=
  err = None \/
  (exists r, err = Some (ECtx r)) \/
  (exists he, err = Some (EHTTP he) /\ isRetryableError (EHTTP he) = false) \/
  (exists e, err = Some (EExhausted (R + 1) (Some e)) /\ isRetryableError e = true).

Definition isExhausted (err : option error) : Prop :=
  exists n last, err = Some (EExhausted n last).

(** The log entries of consecutive failed attempts that are retried, the
    first with loop variable [attempt]: each carries the attempt number
    [attempt + 1], the configured delay and the attempt's error. *)
Fixpoint retryEntries (method url : string) (delay : Z) (attempt : Z)
    (errs : list error) : list logEntry :=
  match errs with
  | [] => []
  | e :: errs' =>
      LogRetrying method url (attempt + 1) delay e
        :: retryEntries method url delay (attempt + 1) errs'
  end.

(** A schedule of the shared token pool: refill ticks and acquisitions in
    the order in which they take effect.  [runLimiter] is [None] when some
    acquisition of the schedule finds the pool empty, that is, when the
    schedule is not one in which every acquisition proceeds at once. *)
Inductive limiterEvent : Type := Tick | Acquire.

Fixpoint runLimiter (evs : list limiterEvent) (c : chan) : option chan :=
  match evs with
  | [] => Some c
  | Tick :: evs' => runLimiter evs' (refillTick c)
  | Acquire :: evs' =>
      match recv c with
      | Some c' => runLimiter evs' c'
      | None => None
      end
  end.

Definition isTick (ev : limiterEvent) : bool :=
  match ev with Tick => true | Acquire => false end.

Definition ticks (evs : list limiterEvent) : Z :=
  Z.of_nat (List.length (filter isTick evs)).

Definition acquisitions (evs : list limiterEvent) : Z :=
  Z.of_nat (List.length (filter (fun ev => negb (isTick ev)) evs)).

Module Scenario.

(** A target that answers 500 to the first [k] attempts and then 200 with
    the body ["7"], a token always available and no cancellation. *)
Definition failsThenOk (k : Z) : World :=
  mkWorld (fun _ => Ready)
          (fun i => if i <? k then DoResp 500 (ReadOk "busy") 5000000
                    else DoResp 200 (ReadOk "7") 5000000)
          (fun _ => Ready).

(** The network is unreachable: every exchange fails before a response. *)
Definition unreachable : World :=
  mkWorld (fun _ => Ready) (fun _ => DoErr "dial tcp: connection refused" 1000000)
          (fun _ => Ready).

End Scenario.

(** * Domain records and their errors (package [models]) *)

Module Models.

(** [time.Time]: an instant and the location it is presented in. *)
Record Time : Type := mkTime {
  unixNano : Z;
  location : string
}.

(** The method [UTC] of [time.Time]. *)
Definition UTC (t : Time) : Time := mkTime (unixNano t) "UTC".

Record Post : Type := mkPost {
  ID : Z;
  UserID : Z;
  Title : string;
  Body : string;
  IngestedAt : Time;
  Source : string
}.

(** [PostResponse]; its fields carry the prefix [pr_] to keep them apart
    from those of [Post]. *)
Record PostResponse : Type := mkPostResponse {
  pr_ID : Z;
  pr_UserID : Z;
  pr_Title : string;
  pr_Body : string
}.

(** The validation errors, package-level sentinel values. *)
Inductive validationErr : Type :=
| ErrInvalidPostID
| ErrInvalidUserID
| ErrEmptyTitle
| ErrEmptySource.

(** [ToPost], with [now] the value of [time.Now()]. *)
Definition ToPost (now : Time) (pr : PostResponse) : Post :=
  mkPost (pr_ID pr) (pr_UserID pr) (pr_Title pr) (pr_Body pr) (UTC now)
         "placeholder_api".

(** [Validate]: [None] for nil. *)
Definition Validate (p : Post) : option validationErr :=
  if ID p <=? 0 then Some ErrInvalidPostID
  else if UserID p <=? 0 then Some ErrInvalidUserID
  else if String.eqb (Title p) "" then Some ErrEmptyTitle
  else if String.eqb (Source p) "" then Some ErrEmptySource
  else None.

Record APIError : Type := mkAPIError {
  StatusCode : Z;
  Message : string;
  URL : string
}.

(** [NewAPIError] *)
Definition NewAPIError (statusCode : Z) (message url : string) : APIError :=
  mkAPIError statusCode message url.

(** The method [IsTemporary] of [APIError]. *)
Definition IsTemporary (ae : APIError) : bool :=
  (500 <=? StatusCode ae) || (StatusCode ae =? 429) || (StatusCode ae =? 408).

End Models.

(** * Structured logging (package [logger]) *)

Module Logger.

(** The levels of logrus. *)
Inductive Level : Type :=
| PanicLevel | FatalLevel | ErrorLevel | WarnLevel | InfoLevel | DebugLevel
| TraceLevel.

Inductive Formatter : Type := JSONFormatter | TextFormatter.

Section Fields.

(** [Val] stands for the values an [interface{}] field can carry. *)
Variable Val : Type.

Record Field : Type := mkField {
  Key : string;
  Value : Val
}.

(** [logrus.Fields], a [map[string]interface{}]: the value under each key. *)
Definition Fields : Type := string -> option Val.

Definition noFields : Fields := fun _ => None.

(** [m[k] = v] *)
Definition setField (m : Fields) (k : string) (v : Val) : Fields :=
  fun k' => if String.eqb k' k then Some v else m k'.

(** [logrusFields := make(logrus.Fields); for _, field := range fields
    { logrusFields[field.Key] = field.Value }] *)
Definition toFields (fields : list Field) : Fields :=
  fold_left (fun m field => setField m (Key field) (Value field)) fields noFields.

(** The logger: the level and the formatter set on the base logger. *)
Record logrusLogger : Type := mkLogger {
  level : Level;
  formatter : Formatter
}.

(** [New] *)
Definition New (lvl format : string) : logrusLogger :=
  mkLogger
    (if String.eqb lvl "debug" then DebugLevel
     else if String.eqb lvl "info" then InfoLevel
     else if String.eqb lvl "warn" then WarnLevel
     else if String.eqb lvl "error" then ErrorLevel
     else InfoLevel)
    (if String.eqb format "json" then JSONFormatter else TextFormatter).

(** The one call a logging method makes on the logrus entry:
    - [LevelCall lvl msg]: the entry's method of level [lvl] on [msg], which
      is what the [logFunc] argument of [logWithFields] is;
    - [LogCall fields lvl msg]: [WithFields(fields).Log(lvl, msg)]. *)
Inductive call : Type :=
| LevelCall (lvl : Level) (msg : string)
| LogCall (fields : Fields) (lvl : Level) (msg : string).

(** [logWithFields]; [logFunc] is given by the level of the entry method
    passed. *)
Definition logWithFields (l : logrusLogger) (logFunc : Level) (msg : string)
    (fields : list Field) : call :=
  if (List.length fields =? 0)%nat then LevelCall logFunc msg
  else LogCall (toFields fields) (level l) msg.

Definition Debug (l : logrusLogger) (msg : string) (fields : list Field) : call :=
  logWithFields l DebugLevel msg fields.

Definition Info (l : logrusLogger) (msg : string) (fields : list Field) : call :=
  logWithFields l InfoLevel msg fields.

Definition Warn (l : logrusLogger) (msg : string) (fields : list Field) : call :=
  logWithFields l WarnLevel msg fields.

Definition Error (l : logrusLogger) (msg : string) (fields : list Field) : call :=
  logWithFields l ErrorLevel msg fields.

Definition Fatal (l : logrusLogger) (msg : string) (fields : list Field) : call :=
  logWithFields l FatalLevel msg fields.

End Fields.

Arguments mkField {Val} Key Value.
Arguments Key {Val} f.
Arguments Value {Val} f.
Arguments noFields {Val}.
Arguments setField {Val} m k v.
Arguments toFields {Val} fields.
Arguments LevelCall {Val} lvl msg.
Arguments LogCall {Val} fields lvl msg.
Arguments logWithFields {Val} l logFunc msg fields.
Arguments Debug {Val} l msg fields.
Arguments Info {Val} l msg fields.
Arguments Warn {Val} l msg fields.
Arguments Error {Val} l msg fields.
Arguments Fatal {Val} l msg fields.

(** The field constructors [String] and [Int], for field values that are
    either text or an integer. *)
Inductive scalar : Type :=
| Text (s : string)
| Number (n : Z).

Definition String (key value : string) : Field scalar := mkField key (Text value).

Definition Int (key : string) (value : Z) : Field scalar := mkField key (Number value).

End Logger.

(** * Migrations (package [database]) *)

Module Database.

Record Migration : Type := mkMigration {
  Version : string;
  SQL : string
}.

(** An error built by [fmt.Errorf(prefix + ": %w", err)], possibly
    several times over, around a driver error whose text is [cause]; the
    outermost prefix comes first. *)
Record dbError : Type := mkDbError {
  prefixes : list string;
  cause : string
}.

Inductive logLevel : Type := LDebug | LInfo | LError.

(** What [applyMigration] does to the database and to the logger, in
    order. *)
Inductive op : Type :=
| OpQueryRow (query arg : string)
| OpBeginTx
| OpTxExec (query : string) (args : list string)
| OpCommit
| OpRollback
| OpLog (l : logLevel) (msg : string).

(** The answers of the database to one run of [applyMigration]: the count
    scanned from the status query or the error of [Scan]; the error, if any,
    of [BeginTx], of the transaction's first and second [ExecContext], and
    of [Commit]. *)
Record Answers : Type := mkAnswers {
  scanCount : string -> string + Z;
  beginTx : option string;
  txExec : nat -> option string;
  commit : option string
}.

Definition checkQuery : string :=
  "SELECT COUNT(*) FROM schema_migrations WHERE version = $1".

Definition recordQuery : string :=
  "INSERT INTO schema_migrations (version) VALUES ($1)".

(** [applyMigration]: the returned error ([None] for nil) and what was
    done.  The deferred [tx.Rollback()] runs last on every path that leaves
    the function after [BeginTx] succeeded. *)
Definition applyMigration (a : Answers) (migration : Migration)
    : option dbError * list op :=
  let queried :=
    [OpQueryRow checkQuery (Version migration);
     OpLog LDebug "Single row query executed"] in
  match scanCount a (Version migration) with
  | inl err =>
      (Some (mkDbError ["failed to check migration status"] err), queried)
  | inr count =>
      if 0 <? count then
        (None, queried ++ [OpLog LDebug "Migration already applied"])%list
      else
        match beginTx a with
        | Some err =>
            (Some (mkDbError ["failed to begin transaction"] err),
             queried ++ [OpBeginTx; OpLog LError "Failed to begin transaction"])%list
        | None =>
            let begun :=
              (queried ++
               [OpBeginTx; OpLog LDebug "Database transaction started"])%list in
            match txExec a 0%nat with
            | Some err =>
                (Some (mkDbError ["failed to execute migration SQL"] err),
                 begun ++ [OpTxExec (SQL migration) []; OpRollback])%list
            | None =>
                match txExec a 1%nat with
                | Some err =>
                    (Some (mkDbError ["failed to record migration"] err),
                     begun ++ [OpTxExec (SQL migration) [];
                               OpTxExec recordQuery [Version migration];
                               OpRollback])%list
                | None =>
                    match commit a with
                    | Some err =>
                        (Some (mkDbError ["failed to commit migration"] err),
                         begun ++ [OpTxExec (SQL migration) [];
                                   OpTxExec recordQuery [Version migration];
                                   OpCommit; OpRollback])%list
                    | None =>
                        (None,
                         begun ++ [OpTxExec (SQL migration) [];
                                   OpTxExec recordQuery [Version migration];
                                   OpCommit;
                                   OpLog LInfo "Migration applied";
                                   OpRollback])%list
                    end
                end
            end
        end
  end.

End Database.

(** * Properties *)

(** ** Go integers *)

Lemma wrap_in_range (z : Z) : GoInt.in_range z -> GoInt.wrap z = z.
Proof.
  unfold GoInt.in_range, GoInt.wrap, GoInt.min_int, GoInt.max_int, GoInt.bits.
  intros H. rewrite Z.mod_small; lia.
Qed.

Lemma wrap_range (z : Z) : GoInt.in_range (GoInt.wrap z).
Proof.
  unfold GoInt.in_range, GoInt.wrap, GoInt.min_int, GoInt.max_int, GoInt.bits.
  pose proof (Z.mod_pos_bound (z + 2 ^ (64 - 1)) (2 ^ 64) ltac:(lia)). lia.
Qed.

Lemma incr_small (z : Z) : GoInt.min_int <= z < GoInt.max_int -> GoInt.incr z = z + 1.
Proof.
  intros H. unfold GoInt.incr. apply wrap_in_range. unfold GoInt.in_range. lia.
Qed.

Lemma max_int_value : GoInt.max_int = 9223372036854775807.
Proof. reflexivity. Qed.

(** ** Error classifier *)

Lemma isRetryableError_HTTP (he : HTTPError) :
  isRetryableError (EHTTP he) = true <->
  500 <= StatusCode he \/ StatusCode he = 429 \/ StatusCode he = 408.
Proof.
  unfold isRetryableError, StatusTooManyRequests, StatusRequestTimeout.
  rewrite !orb_true_iff, Z.leb_le, !Z.eqb_eq. tauto.
Qed.

Lemma isRetryableError_IsTemporary (he : HTTPError) :
  isRetryableError (EHTTP he) = IsTemporary he.
Proof. reflexivity. Qed.

Lemma isRetryableError_not_HTTP (err : error) :
  (forall he, err <> EHTTP he) -> isRetryableError err = true.
Proof. destruct err; intros H; try reflexivity. now destruct (H he). Qed.

(** On the statuses of responses that carry a standard code, the classifier
    and the stated policy agree. *)
Lemma isRetryableError_policy (he : HTTPError) :
  1 <= StatusCode he <= 599 ->
  isRetryableError (EHTTP he) = policy_retryable (StatusCode he).
Proof.
  intros H. unfold isRetryableError, policy_retryable,
    StatusTooManyRequests, StatusRequestTimeout.
  destruct (Z.leb_spec 500 (StatusCode he)), (Z.leb_spec (StatusCode he) 599),
    (Z.eqb_spec (StatusCode he) 429), (Z.eqb_spec (StatusCode he) 408),
    (Z.eqb_spec (StatusCode he) 0); try reflexivity; lia.
Qed.

(** C1. The classifier is not the stated policy: a CallError with status 0,
    the one the executor builds when no response was received, is classified
    non-retryable although the policy (and the code's own comment on network
    errors) makes it retryable, and a status of 600 is classified retryable
    although the policy makes it non-retryable. *)
Theorem classifier_differs_from_policy :
  forall (method url cause : string) (duration : Z),
    isRetryableError (EHTTP (mkHTTPError method url 0 cause duration)) = false /\
    policy_retryable 0 = true /\
    isRetryableError (EHTTP (mkHTTPError method url 600 cause duration)) = true /\
    policy_retryable 600 = false.
Proof. intros. repeat split; reflexivity. Qed.

(** ** URL building *)

Lemma buildURL_empty_base (cfg : Config) (path : string) :
  BaseURL cfg = "" -> buildURL cfg path = Ret path.
Proof. intros H. unfold buildURL. now rewrite H. Qed.

Lemma buildURL_nonempty_path (cfg : Config) (path : string) :
  path <> "" -> buildURL cfg path = Ret (spec_fullURL (BaseURL cfg) path).
Proof.
  intros Hp. unfold buildURL, spec_fullURL.
  destruct (String.eqb (BaseURL cfg) ""); [reflexivity|].
  destruct path as [|c rest]; [congruence|].
  cbn [dropLeadingSlash].
  destruct (Ascii.eqb_spec c "/"%char) as [->|Hc]; reflexivity.
Qed.

Lemma buildURL_empty_path (cfg : Config) :
  BaseURL cfg <> "" ->
  buildURL cfg "" = Panic "runtime error: index out of range [0] with length 0".
Proof.
  intros Hb. unfold buildURL.
  destruct (String.eqb_spec (BaseURL cfg) ""); [contradiction|reflexivity].
Qed.

(** C7. At a non-empty base URL and the empty path the executor's URL is
    not the join the specification describes: [buildURL] panics on
    [path[0]], where the join is the base URL followed by one slash. *)
Theorem buildURL_panics_where_join_defined :
  buildURL (Demo.cfg 3 2) "" =
    Panic "runtime error: index out of range [0] with length 0" /\
  spec_fullURL (BaseURL (Demo.cfg 3 2)) "" = "https://api.example.test/" /\
  buildURL (Demo.cfg 3 2) "" <> Ret (spec_fullURL (BaseURL (Demo.cfg 3 2)) "").
Proof. repeat split; try reflexivity. discriminate. Qed.

(** C9. With a non-empty base URL, each public method called with the empty
    string as its url panics on the index [path[0]] in [buildURL]: no error
    value is returned, whatever the environment, the payload and the
    destination. *)
Theorem public_methods_panic_on_empty_url :
  forall (B V : Type) (L : Lib B V) (hc : httpClient) (w : World) (fuel : nat)
         (body : option B) (result : option V),
    BaseURL (config hc) <> "" ->
    let panic :=
      Some (Panic "runtime error: index out of range [0] with length 0") in
    Get hc w fuel "" result = panic /\
    Post hc w fuel "" body result = panic /\
    Put hc w fuel "" body result = panic /\
    Delete (V := V) hc w fuel "" = panic.
Proof.
  intros B V L hc w fuel body result Hb panic.
  unfold Get, Post, Put, Delete, doRequestWithRetry.
  rewrite (buildURL_empty_path _ Hb). repeat split; reflexivity.
Qed.

Lemma public_methods_panic_on_empty_url_witness :
  BaseURL (config (Demo.client 3)) <> "" /\
  Get (L := Demo.lib) (Demo.client 3) (Demo.always 200 "{}") 10 "" (Some "") =
    Some (Panic "runtime error: index out of range [0] with length 0").
Proof.
  split; [discriminate|].
  apply (public_methods_panic_on_empty_url string string Demo.lib (Demo.client 3)
           (Demo.always 200 "{}") 10 None (Some "")).
  discriminate.
Defined.

(** ** Token bucket *)

Lemma fill_adds (n : nat) (c : chan) :
  len c + Z.of_nat n <= cap c ->
  fill n c = Ret (mkChan (cap c) (len c + Z.of_nat n)).
Proof.
  revert c. induction n as [|n IH]; intros c H.
  - cbn. destruct c as [k l]. cbn. f_equal. f_equal. lia.
  - cbn [fill]. unfold send.
    destruct (Z.ltb_spec (len c) (cap c)); [|lia].
    rewrite IH; cbn [cap len]; [|lia]. f_equal. f_equal. lia.
Qed.

Lemma New_Ret (cfg : Config) :
  0 <= RateLimit cfg ->
  New cfg = Ret (mkClient cfg (mkChan (RateLimit cfg) (RateLimit cfg))).
Proof.
  intros H. unfold New, make_chan.
  destruct (Z.ltb_spec (RateLimit cfg) 0); [lia|].
  cbn [go_bind]. rewrite fill_adds; cbn [cap len]; [|lia].
  cbn [go_bind]. rewrite Z2Nat.id by lia. reflexivity.
Qed.

Lemma New_negative (cfg : Config) :
  RateLimit cfg < 0 -> New cfg = Panic "makechan: size out of range".
Proof.
  intros H. unfold New, make_chan.
  destruct (Z.ltb_spec (RateLimit cfg) 0); [reflexivity|lia].
Qed.

Lemma New_inv (cfg : Config) (hc : httpClient) :
  New cfg = Ret hc ->
  0 <= RateLimit cfg /\ hc = mkClient cfg (mkChan (RateLimit cfg) (RateLimit cfg)).
Proof.
  intros H. destruct (Z.lt_ge_cases (RateLimit cfg) 0) as [Hn|Hn].
  - rewrite (New_negative _ Hn) in H. discriminate.
  - split; [assumption|]. rewrite (New_Ret _ Hn) in H. now inversion H.
Qed.

Lemma refillTick_full (c : chan) : len c = cap c -> refillTick c = c.
Proof.
  intros H. unfold refillTick, send.
  destruct (Z.ltb_spec (len c) (cap c)); [lia|reflexivity].
Qed.

Lemma limiter_step_within (c c' : chan) :
  limiter_step c c' -> within c -> within c' /\ cap c' = cap c.
Proof.
  unfold within. intros Hs Hw. destruct Hs as [c|c c' Hr|c Hz].
  - unfold refillTick, send.
    destruct (Z.ltb_spec (len c) (cap c)); cbn [cap len]; lia.
  - unfold recv in Hr. destruct (Z.ltb_spec 0 (len c)); [|discriminate].
    inversion Hr; subst; cbn [cap len]; lia.
  - lia.
Qed.

Lemma reachable_within (c0 c : chan) :
  reachable c0 c -> within c0 -> within c /\ cap c = cap c0.
Proof.
  intros Hr Hw. induction Hr as [|c c' Hs Hr IH].
  - split; [assumption|reflexivity].
  - destruct IH as [IHw IHc].
    destruct (limiter_step_within _ _ Hs IHw) as [Hw' Hc'].
    split; [assumption|congruence].
Qed.

Lemma acquireN_takes (k : nat) (c : chan) :
  Z.of_nat k <= len c ->
  acquireN k c = Some (mkChan (cap c) (len c - Z.of_nat k)).
Proof.
  revert c. induction k as [|k IH]; intros c H.
  - cbn. destruct c as [n l]. cbn. f_equal. f_equal. lia.
  - cbn [acquireN]. unfold recv.
    destruct (Z.ltb_spec 0 (len c)); [|lia].
    rewrite IH; cbn [cap len]; [|lia]. f_equal. f_equal. lia.
Qed.

(** C6. A constructed client's pool holds exactly N tokens, N the configured
    rate limit, so that any k <= N acquisitions in a row succeed without a
    refill; in every state the pool can reach, by ticks and acquisitions in
    any order, it has 0 <= tokens <= N, and a tick that finds N tokens leaves
    the pool as it is. *)
Theorem token_pool_bounded :
  forall (cfg : Config) (hc : httpClient),
    New cfg = Ret hc ->
    let N := RateLimit cfg in
    cap (rateLimiter hc) = N /\
    len (rateLimiter hc) = N /\
    (forall k : nat, Z.of_nat k <= N ->
       acquireN k (rateLimiter hc) = Some (mkChan N (N - Z.of_nat k))) /\
    (forall c : chan, reachable (rateLimiter hc) c ->
       0 <= len c <= N /\ (len c = N -> refillTick c = c)).
Proof.
  intros cfg hc HN N. destruct (New_inv _ _ HN) as [Hpos ->]. cbn [rateLimiter cap len].
  split; [reflexivity|]. split; [reflexivity|]. split.
  - intros k Hk. now rewrite acquireN_takes.
  - intros c Hr.
    destruct (reachable_within _ c Hr) as [Hw Hc]; [unfold within; cbn; lia|].
    unfold within in Hw. cbn [cap] in Hc. fold N in Hc.
    split; [lia|]. intros Hfull. apply refillTick_full. lia.
Qed.

Lemma token_pool_bounded_witness :
  New (Demo.cfg 3 2) = Ret (Demo.client 3) /\
  acquireN 2 (rateLimiter (Demo.client 3)) = Some (mkChan 2 0) /\
  acquireN 3 (rateLimiter (Demo.client 3)) = None /\
  refillTick (rateLimiter (Demo.client 3)) = rateLimiter (Demo.client 3).
Proof.
  assert (H : New (Demo.cfg 3 2) = Ret (Demo.client 3)) by reflexivity.
  destruct (token_pool_bounded _ _ H) as (_ & _ & Hacq & Hreach).
  split; [exact H|]. split; [exact (Hacq 2%nat ltac:(cbn; lia))|].
  split; [reflexivity|].
  apply (Hreach (rateLimiter (Demo.client 3))); [constructor|reflexivity].
Defined.

Lemma reachable_empty_pool (c : chan) :
  reachable (mkChan 0 0) c -> c = mkChan 0 0.
Proof.
  intros Hr. destruct (reachable_within _ _ Hr) as [Hw Hc].
  - unfold within. cbn. lia.
  - unfold within in Hw. cbn [cap] in Hc. destruct c as [n l].
    cbn [cap len] in *. f_equal; lia.
Qed.

(** C8, as stated, fails: with rate limit 0 the constructor reports nothing;
    it returns a client. *)
Lemma New_zero_rate_reports_no_error :
  New (Demo.cfg 3 0) = Ret (mkClient (Demo.cfg 3 0) (mkChan 0 0)) /\
  ~ (exists msg, New (Demo.cfg 3 0) = Panic msg).
Proof.
  split; [reflexivity|]. intros [msg H]. discriminate H.
Qed.

(** C8, amended. Constructing a client with rate limit 0 returns a client
    and no error: its pool has capacity 0, never holds a token in any state
    it can reach, so that no receive on it can proceed at once; the only
    failure is the panic of the refill goroutine's division of one second by
    the rate limit. *)
Theorem New_zero_rate :
  forall cfg : Config,
    RateLimit cfg = 0 ->
    New cfg = Ret (mkClient cfg (mkChan 0 0)) /\
    (forall c : chan, reachable (mkChan 0 0) c -> len c = 0 /\ recv c = None) /\
    refillInterval (RateLimit cfg) = Panic "runtime error: integer divide by zero".
Proof.
  intros cfg H0. split; [|split].
  - rewrite New_Ret by lia. now rewrite H0.
  - intros c Hr. rewrite (reachable_empty_pool _ Hr). split; reflexivity.
  - now rewrite H0.
Qed.

Lemma New_zero_rate_witness :
  RateLimit (Demo.cfg 3 0) = 0 /\
  New (Demo.cfg 3 0) = Ret (mkClient (Demo.cfg 3 0) (mkChan 0 0)).
Proof.
  split; [reflexivity|]. apply (New_zero_rate (Demo.cfg 3 0)). reflexivity.
Defined.

(** ** Executor *)

Section ExecutorFacts.

Context {B V : Type} {L : Lib B V}.

Lemma doRequest_serializationFails method url body result net cause :
  serializationFails body cause ->
  doRequest method url body result net =
    (Some (EWrap "failed to marshal request body" cause), result).
Proof.
  intros (b & -> & Hm). unfold doRequest. now rewrite Hm.
Qed.

Lemma doRequest_sends method url body result net :
  encodes body -> newRequest method url = None ->
  doRequest method url body result net =
    match net with
    | DoErr cause duration =>
        (Some (EHTTP (mkHTTPError method url 0 cause duration)), result)
    | DoResp _ (ReadErr cause) _ =>
        (Some (EWrap "failed to read response body" cause), result)
    | DoResp status (ReadOk respBody) duration =>
        if (status <? 200) || (300 <=? status) then
          (Some (EHTTP (mkHTTPError method url status respBody duration)), result)
        else
          match result with
          | Some v =>
              if 0 <? Z.of_nat (String.length respBody) then
                match unmarshal respBody v with
                | (v', Some cause) =>
                    (Some (EWrap "failed to unmarshal response" cause), Some v')
                | (v', None) => (None, Some v')
                end
              else (None, result)
          | None => (None, result)
          end
    end.
Proof.
  intros He Hn. unfold doRequest. rewrite Hn.
  destruct body as [b|]; [|reflexivity].
  destruct He as [bodyBytes ->]. reflexivity.
Qed.

Lemma doRequest_decodeFails method url body result net v' cause :
  decodeFails method url body result net v' cause ->
  doRequest method url body result net =
    (Some (EWrap "failed to unmarshal response" cause), Some v').
Proof.
  intros (He & Hn & status & respBody & d & v & -> & Hs & -> & Hl & Hu).
  rewrite doRequest_sends by assumption.
  destruct (Z.ltb_spec status 200); [lia|].
  destruct (Z.leb_spec 300 status); [lia|]. cbn [orb].
  destruct (Z.ltb_spec 0 (Z.of_nat (String.length respBody))); [|lia].
  now rewrite Hu.
Qed.

Lemma doRequest_status_error method url body result status respBody duration :
  encodes body -> newRequest method url = None ->
  status < 200 \/ 300 <= status ->
  doRequest method url body result (DoResp status (ReadOk respBody) duration) =
    (Some (EHTTP (mkHTTPError method url status respBody duration)), result).
Proof.
  intros He Hn Hs. rewrite doRequest_sends by assumption.
  destruct (Z.ltb_spec status 200); [reflexivity|].
  destruct (Z.leb_spec 300 status); [reflexivity|lia].
Qed.

Lemma doRequest_empty_body method url body result status duration :
  encodes body -> newRequest method url = None ->
  200 <= status < 300 ->
  doRequest method url body result (DoResp status (ReadOk "") duration) =
    (None, result).
Proof.
  intros He Hn Hs. rewrite doRequest_sends by assumption.
  destruct (Z.ltb_spec status 200); [lia|].
  destruct (Z.leb_spec 300 status); [lia|]. cbn [orb].
  destruct result; reflexivity.
Qed.

End ExecutorFacts.

(** ** Retry orchestrator: one lemma per way through the loop body *)

Section LoopFacts.

Context {B V : Type} {L : Lib B V}.

Variable hc : httpClient.
Variable w : World.
Variables method fullURL : string.
Variable body : option B.

Local Abbreviation R := (RetryCount (config hc)).
Local Abbreviation loop := (retryLoop hc w method fullURL body).

Lemma loop_exit fuel attempt e s :
  R < attempt ->
  loop (S fuel) attempt (Some e) s =
    Some (Ret (Some (EExhausted (GoInt.incr R) (Some e)),
               logged (LogExhausted method fullURL (GoInt.incr R) (Some e)) s)).
Proof.
  intros H. cbn [retryLoop].
  destruct (Z.leb_spec attempt R); [lia|reflexivity].
Qed.


Lemma loop_token_cancelled fuel attempt lastErr s r :
  attempt <= R ->
  w_token w attempt = CtxDone r ->
  loop (S fuel) attempt lastErr s = Some (Ret (Some (ECtx r), s)).
Proof.
  intros H Ht. cbn [retryLoop].
  destruct (Z.leb_spec attempt R); [|lia]. now rewrite Ht.
Qed.

Lemma loop_success fuel attempt lastErr s result' :
  attempt <= R ->
  w_token w attempt = Ready ->
  doRequest method fullURL body (dest s) (w_do w attempt) = (None, result') ->
  loop (S fuel) attempt lastErr s =
    Some (Ret (None, logged (LogSuccess method fullURL (GoInt.incr attempt))
                       (mkState result' (S (calls s)) (log s)))).
Proof.
  intros H Ht Hd. cbn [retryLoop].
  destruct (Z.leb_spec attempt R); [|lia]. now rewrite Ht, Hd.
Qed.

Lemma loop_non_retryable fuel attempt lastErr s e result' :
  attempt <= R ->
  w_token w attempt = Ready ->
  doRequest method fullURL body (dest s) (w_do w attempt) = (Some e, result') ->
  isRetryableError e = false ->
  loop (S fuel) attempt lastErr s =
    Some (Ret (Some e, logged (LogNonRetryable method fullURL e)
                         (mkState result' (S (calls s)) (log s)))).
Proof.
  intros H Ht Hd Hr. cbn [retryLoop].
  destruct (Z.leb_spec attempt R); [|lia]. now rewrite Ht, Hd, Hr.
Qed.

Lemma loop_delay_cancelled fuel attempt lastErr s e result' r :
  attempt < R ->
  w_token w attempt = Ready ->
  doRequest method fullURL body (dest s) (w_do w attempt) = (Some e, result') ->
  isRetryableError e = true ->
  w_delay w attempt = CtxDone r ->
  loop (S fuel) attempt lastErr s =
    Some (Ret (Some (ECtx r),
               logged (LogRetrying method fullURL (GoInt.incr attempt)
                         (RetryDelay (config hc)) e)
                 (mkState result' (S (calls s)) (log s)))).
Proof.
  intros H Ht Hd Hr Hw. cbn [retryLoop].
  destruct (Z.leb_spec attempt R); [|lia]. rewrite Ht, Hd, Hr. cbn [negb].
  destruct (Z.ltb_spec attempt R); [|lia]. now rewrite Hw.
Qed.

Lemma loop_retry fuel attempt lastErr s e result' :
  attempt < R ->
  w_token w attempt = Ready ->
  doRequest method fullURL body (dest s) (w_do w attempt) = (Some e, result') ->
  isRetryableError e = true ->
  w_delay w attempt = Ready ->
  loop (S fuel) attempt lastErr s =
    loop fuel (GoInt.incr attempt) (Some e)
      (logged (LogRetrying method fullURL (GoInt.incr attempt)
                 (RetryDelay (config hc)) e)
         (mkState result' (S (calls s)) (log s))).
Proof.
  intros H Ht Hd Hr Hw. cbn [retryLoop].
  destruct (Z.leb_spec attempt R); [|lia]. rewrite Ht, Hd, Hr. cbn [negb].
  destruct (Z.ltb_spec attempt R); [|lia]. now rewrite Hw.
Qed.

Lemma loop_last fuel attempt lastErr s e result' :
  attempt = R ->
  w_token w attempt = Ready ->
  doRequest method fullURL body (dest s) (w_do w attempt) = (Some e, result') ->
  isRetryableError e = true ->
  loop (S fuel) attempt lastErr s =
    loop fuel (GoInt.incr attempt) (Some e)
      (mkState result' (S (calls s)) (log s)).
Proof.
  intros H Ht Hd Hr. cbn [retryLoop].
  destruct (Z.leb_spec attempt R); [|lia]. rewrite Ht, Hd, Hr. cbn [negb].
  destruct (Z.ltb_spec attempt R); [lia|reflexivity].
Qed.

(** From the loop test at [attempt], with [n] retries left, a target that
    keeps failing retryably and no cancellation: [n + 1] executor
    invocations, then the exhaustion error around the last failure. *)
Lemma loop_exhausts (n : nat) :
  forall fuel attempt lastErr s,
    GoInt.min_int <= attempt ->
    attempt + Z.of_nat n = R ->
    R < GoInt.max_int ->
    (forall i, attempt <= i <= R ->
       w_token w i = Ready /\ w_delay w i = Ready /\
       failsRetryably (V := V) method fullURL body (w_do w i)) ->
    (n + 2 <= fuel)%nat ->
    exists e s',
      loop fuel attempt lastErr s =
        Some (Ret (Some (EExhausted (R + 1) (Some e)), s')) /\
      calls s' = (calls s + n + 1)%nat /\
      exists result,
        fst (doRequest method fullURL body result (w_do w R)) = Some e.
Proof.
  induction n as [|n IH]; intros fuel attempt lastErr s Hlo Hn Hmax Hw Hfuel.
  - assert (attempt = R) as Ha by lia.
    destruct fuel as [|[|fuel]]; try lia.
    destruct (Hw attempt ltac:(lia)) as (Ht & _ & Hf).
    destruct (Hf (dest s)) as (e & result' & Hd & Hr).
    rewrite (loop_last _ _ _ _ _ _ Ha Ht Hd Hr).
    rewrite loop_exit by (rewrite incr_small; lia).
    rewrite (incr_small R) by lia.
    eexists. eexists. split; [reflexivity|]. split.
    + cbn. lia.
    + exists (dest s). rewrite <- Ha, Hd. reflexivity.
  - destruct fuel as [|fuel]; try lia.
    destruct (Hw attempt ltac:(lia)) as (Ht & Hdl & Hf).
    destruct (Hf (dest s)) as (e & result' & Hd & Hr).
    assert (attempt < R) as Hlt by lia.
    rewrite (loop_retry _ _ _ _ _ _ Hlt Ht Hd Hr Hdl).
    rewrite (incr_small attempt) by lia.
    edestruct (IH fuel (attempt + 1)) as (e' & s' & Hl & Hc & He);
      [| |exact Hmax| |..]; try lia.
    + intros i Hi. apply Hw. lia.
    + exists e', s'. split; [exact Hl|]. split; [|exact He].
      rewrite Hc. cbn. lia.
Qed.

End LoopFacts.

(** ** Retry orchestrator: what a loop can return *)

Lemma isRetryableError_false_HTTP (e : error) :
  isRetryableError e = false -> exists he, e = EHTTP he.
Proof. destruct e; try discriminate. intros _. now exists he. Qed.

Section LoopOutcomes.

Context {B V : Type} {L : Lib B V}.

Variable hc : httpClient.
Variable w : World.
Variables method fullURL : string.
Variable body : option B.

Local Abbreviation R := (RetryCount (config hc)).
Local Abbreviation loop := (retryLoop hc w method fullURL body).

(** Whatever the environment, a loop that returns does so with one of the
    four terminal errors, after at most one executor invocation per
    remaining value of [attempt], and with all of them used up when the
    error is the exhaustion error. *)
Lemma loop_shape (fuel : nat) :
  forall attempt lastErr s err s',
    GoInt.min_int <= R < GoInt.max_int ->
    GoInt.min_int <= attempt <= R + 1 ->
    (attempt = R + 1 -> exists e, lastErr = Some e /\ isRetryableError e = true) ->
    loop fuel attempt lastErr s = Some (Ret (err, s')) ->
    terminal R err /\
    Z.of_nat (calls s') <= Z.of_nat (calls s) + (R + 1 - attempt) /\
    (isExhausted err ->
     Z.of_nat (calls s') = Z.of_nat (calls s) + (R + 1 - attempt)).
Proof.
  induction fuel as [|fuel IH]; intros attempt lastErr s err s' HR Ha Hlast H;
    [discriminate H|].
  cbn [retryLoop] in H.
  destruct (Z.leb_spec attempt R) as [Hle|Hgt].
  - destruct (w_token w attempt) as [|r].
    + destruct (doRequest method fullURL body (dest s) (w_do w attempt))
        as [[e|] result'] eqn:Hd.
      * destruct (isRetryableError e) eqn:Hr; cbn [negb] in H.
        -- assert (Hnext :
             loop fuel (attempt + 1) (Some e)
               (if attempt <? R
                then logged (LogRetrying method fullURL (GoInt.incr attempt)
                               (RetryDelay (config hc)) e)
                       (mkState result' (S (calls s)) (log s))
                else mkState result' (S (calls s)) (log s))
             = Some (Ret (err, s')) \/
             exists r, attempt < R /\ w_delay w attempt = CtxDone r /\
               err = Some (ECtx r) /\ calls s' = S (calls s)).
           { rewrite <- (incr_small attempt) by lia.
             destruct (Z.ltb_spec attempt R) as [Hlt|Hge].
             - destruct (w_delay w attempt) as [|r] eqn:Hdl.
               + now left.
               + right. exists r. inversion H; subst. cbn [calls logged].
                 repeat split; lia.
             - now left. }
           destruct Hnext as [Hnext|(r & Hlt & _ & -> & Hc)].
           ++ apply IH in Hnext; [|assumption|lia|intros _; now exists e].
              destruct Hnext as (Ht & Hb & Hx).
              assert (Hcalls :
                calls (if attempt <? R
                       then logged (LogRetrying method fullURL (GoInt.incr attempt)
                                      (RetryDelay (config hc)) e)
                              (mkState result' (S (calls s)) (log s))
                       else mkState result' (S (calls s)) (log s)) = S (calls s))
                by (destruct (attempt <? R); reflexivity).
              rewrite Hcalls in Hb, Hx.
              split; [exact Ht|]. split; [lia|]. intros He. specialize (Hx He). lia.
           ++ split; [right; left; now exists r|]. split; [lia|].
              intros (n & last & He). discriminate He.
        -- inversion H; subst. cbn [calls logged].
           destruct (isRetryableError_false_HTTP _ Hr) as [he ->].
           split; [right; right; left; now exists he|]. split; [lia|].
           intros (n & last & He). discriminate He.
      * inversion H; subst. cbn [calls logged].
        split; [now left|]. split; [lia|].
        intros (n & last & He). discriminate He.
    + inversion H; subst.
      split; [right; left; now exists r|]. split; [lia|].
      intros (n & last & He). discriminate He.
  - assert (attempt = R + 1) as Heq by lia.
    destruct (Hlast Heq) as (e & -> & Hr).
    cbv beta iota zeta in H.
    inversion H; subst. cbn [calls logged]. rewrite (incr_small R) by lia.
    split; [right; right; right; now exists e|]. split; [lia|]. intros _. lia.
Qed.

(** With [n] values of [attempt] left before the loop test fails, [n + 1]
    loop tests are enough for the loop to return, whatever the environment,
    provided some failure is there to report when no value is left. *)
Lemma loop_returns (n : nat) :
  forall fuel attempt lastErr s,
    GoInt.min_int <= R < GoInt.max_int ->
    GoInt.min_int <= attempt ->
    attempt + Z.of_nat n = R + 1 ->
    (n = 0%nat -> exists e, lastErr = Some e) ->
    (n + 1 <= fuel)%nat ->
    exists r, loop fuel attempt lastErr s = Some (Ret r).
Proof.
  induction n as [|n IH]; intros fuel attempt lastErr s HR Ha Hn Hlast Hfuel;
    (destruct fuel as [|fuel]; [lia|]).
  - destruct (Hlast eq_refl) as [e ->].
    rewrite loop_exit by lia. eexists. reflexivity.
  - cbn [retryLoop].
    destruct (Z.leb_spec attempt R) as [Hle|Hgt]; [|lia].
    destruct (w_token w attempt) as [|r]; [|eexists; reflexivity].
    destruct (doRequest method fullURL body (dest s) (w_do w attempt))
      as [[e|] result']; [|eexists; reflexivity].
    destruct (negb (isRetryableError e)); [eexists; reflexivity|].
    rewrite (incr_small attempt) by lia.
    destruct (attempt <? R).
    + destruct (w_delay w attempt) as [|r]; [|eexists; reflexivity].
      apply IH; try assumption; try lia. intros _. now exists e.
    + apply IH; try assumption; try lia. intros _. now exists e.
Qed.

(** From the loop test at [attempt], [n] attempts that fail retryably
    with the delay elapsing, then one that succeeds: [n + 1] executor
    invocations, nil, and a log extended by the retry entry of each failed
    attempt, in order, with that attempt's error, and then by the success
    entry. *)
Lemma loop_recovers (n : nat) :
  forall fuel attempt lastErr s,
    GoInt.min_int <= attempt ->
    attempt + Z.of_nat n <= R ->
    attempt + Z.of_nat n < GoInt.max_int ->
    (forall i, attempt <= i < attempt + Z.of_nat n ->
       w_token w i = Ready /\ w_delay w i = Ready /\
       failsRetryably (V := V) method fullURL body (w_do w i)) ->
    w_token w (attempt + Z.of_nat n) = Ready ->
    succeedsAt (V := V) method fullURL body (w_do w (attempt + Z.of_nat n)) ->
    (n + 1 <= fuel)%nat ->
    exists s' errs,
      loop fuel attempt lastErr s = Some (Ret (None, s')) /\
      calls s' = (calls s + n + 1)%nat /\
      List.length errs = n /\
      (forall i e, nth_error errs i = Some e ->
         isRetryableError e = true /\
         exists result,
           fst (doRequest method fullURL body result
                  (w_do w (attempt + Z.of_nat i))) = Some e) /\
      log s' =
        (log s
           ++ retryEntries method fullURL (RetryDelay (config hc)) attempt errs
           ++ [LogSuccess method fullURL (attempt + Z.of_nat n + 1)])%list.
Proof.
  induction n as [|n IH]; intros fuel attempt lastErr s Ha HR Hmax Hfail Ht Hok Hfuel;
    (destruct fuel as [|fuel]; [lia|]).
  - rewrite Z.add_0_r in *.
    destruct (doRequest method fullURL body (dest s) (w_do w attempt))
      as [err result'] eqn:Hd.
    pose proof (Hok (dest s)) as Hnil. rewrite Hd in Hnil. cbn [fst] in Hnil.
    subst err.
    rewrite (loop_success hc w method fullURL body fuel attempt lastErr s result'
               HR Ht Hd).
    rewrite (incr_small attempt) by lia.
    eexists. exists []. split; [reflexivity|]. cbn [calls logged log List.length].
    split; [lia|]. split; [reflexivity|]. split; [|reflexivity].
    intros i e He. destruct i; discriminate He.
  - destruct (Hfail attempt ltac:(lia)) as (Htk & Hdl & Hf).
    destruct (Hf (dest s)) as (e & result' & Hd & Hr).
    assert (attempt < R) as Hlt by lia.
    rewrite (loop_retry hc w method fullURL body fuel attempt lastErr s e result'
               Hlt Htk Hd Hr Hdl).
    rewrite (incr_small attempt) by lia.
    replace (attempt + Z.of_nat (S n)) with (attempt + 1 + Z.of_nat n) in * by lia.
    edestruct (IH fuel (attempt + 1))
      as (s' & errs & Hl & Hc & Hlen & Herrs & Hlog);
      [| | | |exact Ht|exact Hok| |]; try lia.
    + intros i Hi. apply Hfail. lia.
    + exists s', (e :: errs). split; [exact Hl|].
      split; [rewrite Hc; cbn [calls logged]; lia|].
      split; [cbn [List.length]; now rewrite Hlen|]. split.
      * intros i e0 He0. destruct i as [|i]; cbn [nth_error] in He0.
        -- inversion He0; subst e0. split; [exact Hr|]. exists (dest s).
           rewrite Z.add_0_r, Hd. reflexivity.
        -- destruct (Herrs i e0 He0) as (Hr0 & res & Hres).
           split; [exact Hr0|]. exists res.
           replace (attempt + Z.of_nat (S i)) with (attempt + 1 + Z.of_nat i)
             by lia.
           exact Hres.
      * rewrite Hlog. cbn [log logged retryEntries]. rewrite <- app_assoc.
        reflexivity.
Qed.

End LoopOutcomes.

(** ** Retry orchestrator: retry count *)

Lemma loop_at_max_int_runs_on (fuel : nat) :
  forall attempt lastErr s,
    GoInt.in_range attempt ->
    retryLoop (L := Demo.lib) (Demo.client GoInt.max_int)
      (Demo.always 503 "unavailable") "GET" "https://api.example.test/items/7"
      None fuel attempt lastErr s = None.
Proof.
  induction fuel as [|fuel IH]; intros attempt lastErr s Hr; [reflexivity|].
  cbn [retryLoop]. cbn [RetryCount config Demo.client Demo.cfg].
  destruct (Z.leb_spec attempt GoInt.max_int) as [_|Hgt];
    [|unfold GoInt.in_range in Hr; lia].
  cbn [w_token w_do Demo.always].
  rewrite doRequest_status_error; [|exact I|reflexivity|lia].
  change (isRetryableError _) with true. cbn [negb].
  destruct (attempt <? GoInt.max_int); apply IH; apply wrap_range.
Qed.

(** C2, as stated, fails: with max retries equal to the largest [int] the
    loop test [attempt <= RetryCount] can never fail, so against a target
    that always answers 503 the call never returns, whatever the fuel. *)
Lemma retry_count_max_int_never_returns :
  ~ exists fuel r,
      doRequestWithRetry (L := Demo.lib) (Demo.client GoInt.max_int)
        (Demo.always 503 "unavailable") fuel "GET" "/items/7" None None = Some r.
Proof.
  intros (fuel & r & H). unfold doRequestWithRetry in H.
  change (buildURL _ _) with (Ret "https://api.example.test/items/7") in H.
  cbv beta iota in H.
  rewrite loop_at_max_int_runs_on in H; [discriminate|].
  unfold GoInt.in_range, GoInt.min_int, GoInt.max_int, GoInt.bits. lia.
Qed.

(** C2, amended. For every configuration with max retries R, 0 <= R and R
    below the largest [int], a target whose every attempt fails with an error
    the classifier retries, and no cancellation: the orchestrator invokes the
    executor exactly R+1 times and then returns the last attempt's error
    wrapped with the attempt count R+1. *)
Theorem retry_count_exhaustion :
  forall (B V : Type) (L : Lib B V) (hc : httpClient) (w : World)
         (method url fullURL : string) (body : option B) (result : option V)
         (fuel : nat),
    let R := RetryCount (config hc) in
    0 <= R < GoInt.max_int ->
    buildURL (config hc) url = Ret fullURL ->
    (forall i, 0 <= i <= R ->
       w_token w i = Ready /\ w_delay w i = Ready /\
       failsRetryably (V := V) method fullURL body (w_do w i)) ->
    (Z.to_nat R + 2 <= fuel)%nat ->
    exists e s',
      doRequestWithRetry hc w fuel method url body result =
        Some (Ret (Some (EExhausted (R + 1) (Some e)), s')) /\
      Z.of_nat (calls s') = R + 1 /\
      exists result0,
        fst (doRequest method fullURL body result0 (w_do w R)) = Some e.
Proof.
  intros B V L hc w method url fullURL body result fuel R HR Hb Hw Hfuel.
  unfold doRequestWithRetry. rewrite Hb.
  destruct (loop_exhausts hc w method fullURL body (Z.to_nat R) fuel 0 None
              (mkState result 0 [])) as (e & s' & Hl & Hc & He).
  - unfold GoInt.min_int, GoInt.bits. lia.
  - fold R. lia.
  - apply HR.
  - exact Hw.
  - exact Hfuel.
  - exists e, s'. fold R in Hl. rewrite Hl. split; [reflexivity|].
    split; [|exact He]. rewrite Hc. cbn [calls]. lia.
Qed.

Lemma retry_count_exhaustion_witness :
  exists e s',
    doRequestWithRetry (L := Demo.lib) (Demo.client 3) (Demo.always 503 "unavailable")
      5 "GET" "/items/7" None None =
      Some (Ret (Some (EExhausted (3 + 1) (Some e)), s')) /\
    Z.of_nat (calls s') = 3 + 1 /\
    exists result0,
      fst (doRequest (L := Demo.lib) "GET" "https://api.example.test/items/7" None
             result0 (w_do (Demo.always 503 "unavailable") 3)) = Some e.
Proof.
  apply (retry_count_exhaustion string string Demo.lib (Demo.client 3)
           (Demo.always 503 "unavailable") "GET" "/items/7"
           "https://api.example.test/items/7" None None 5).
  - cbn. unfold GoInt.max_int, GoInt.bits. lia.
  - reflexivity.
  - intros i Hi. split; [reflexivity|]. split; [reflexivity|].
    intros result0. eexists. eexists. split; reflexivity.
  - cbn. lia.
Defined.

(** ** Retry orchestrator: failures that are not CallErrors *)

(** C3, as stated, fails: with one retry configured, a payload that does
    not serialize and a 2xx body that does not deserialize are both attempted
    twice and come back wrapped in the exhaustion error; no fuel makes either
    call return after one executor invocation. *)
Lemma serialization_and_decode_failures_are_retried :
  (~ exists fuel err s',
       Post (L := Demo.lib) (Demo.client 1) (Demo.always 200 "{}") fuel
         "/items" (Some "chan") None = Some (Ret (err, s')) /\
       calls s' = 1%nat) /\
  (~ exists fuel err s',
       Get (L := Demo.lib) (Demo.client 1) (Demo.always 200 "{") fuel
         "/items/7" (Some "") = Some (Ret (err, s')) /\
       calls s' = 1%nat) /\
  (exists s',
     Post (L := Demo.lib) (Demo.client 1) (Demo.always 200 "{}") 3
       "/items" (Some "chan") None =
       Some (Ret (Some (EExhausted 2
                          (Some (EWrap "failed to marshal request body"
                                   "json: unsupported type: chan int"))), s')) /\
     calls s' = 2%nat).
Proof.
  split; [|split].
  - intros (fuel & err & s' & H & Hc).
    destruct fuel as [|[|[|fuel]]]; cbn in H; try discriminate H.
    inversion H; subst. discriminate Hc.
  - intros (fuel & err & s' & H & Hc).
    destruct fuel as [|[|[|fuel]]]; cbn in H; try discriminate H.
    inversion H; subst. discriminate Hc.
  - eexists. split; reflexivity.
Qed.

(** C3, amended. An attempt whose request body fails to serialize, and an
    attempt that receives a 2xx response whose body fails to deserialize,
    return an error that is not a CallError and that the classifier retries:
    neither failure is fatal.  If the attempt is the last one (attempt = R,
    with R below the largest [int]) the orchestrator returns, after that
    attempt, the error wrapped with the attempt count R+1.  If attempts
    remain (attempt < R) it logs the retry and waits the delay: when the
    delay elapses it goes on to the loop test of the next attempt, and when
    the cancellation signal fires first it returns the context's error.  In
    no case, whatever the fuel, does it return the error itself. *)
Theorem serialization_and_decode_failures_retryable :
  forall (B V : Type) (L : Lib B V) (hc : httpClient) (w : World)
         (method fullURL : string) (body : option B) (fuel : nat)
         (attempt : Z) (lastErr : option error) (s : state)
         (e : error) (result' : option V),
    let R := RetryCount (config hc) in
    GoInt.min_int <= attempt <= R ->
    R < GoInt.max_int ->
    w_token w attempt = Ready ->
    (exists cause,
       serializationFails body cause /\
       e = EWrap "failed to marshal request body" cause /\ result' = dest s) \/
    (exists v' cause,
       decodeFails method fullURL body (dest s) (w_do w attempt) v' cause /\
       e = EWrap "failed to unmarshal response" cause /\ result' = Some v') ->
    let s1 := mkState result' (S (calls s)) (log s) in
    let s2 :=
      logged (LogRetrying method fullURL (attempt + 1) (RetryDelay (config hc)) e)
        s1 in
    doRequest method fullURL body (dest s) (w_do w attempt) = (Some e, result') /\
    isRetryableError e = true /\
    (forall he, e <> EHTTP he) /\
    (attempt = R ->
     retryLoop hc w method fullURL body (S (S fuel)) attempt lastErr s =
       Some (Ret (Some (EExhausted (R + 1) (Some e)),
                  logged (LogExhausted method fullURL (R + 1) (Some e)) s1))) /\
    (attempt < R -> w_delay w attempt = Ready ->
     retryLoop hc w method fullURL body (S fuel) attempt lastErr s =
       retryLoop hc w method fullURL body fuel (attempt + 1) (Some e) s2) /\
    (attempt < R -> forall r, w_delay w attempt = CtxDone r ->
     retryLoop hc w method fullURL body (S fuel) attempt lastErr s =
       Some (Ret (Some (ECtx r), s2))) /\
    (forall fuel' err s',
       retryLoop hc w method fullURL body fuel' attempt lastErr s
         = Some (Ret (err, s')) ->
       err <> Some e).
Proof.
  intros B V L hc w method fullURL body fuel attempt lastErr s e result' R
    Ha Hmax Ht Hkind s1 s2.
  assert (Hd : doRequest method fullURL body (dest s) (w_do w attempt)
               = (Some e, result')).
  { destruct Hkind as [(cause & Hs & -> & ->)|(v' & cause & Hs & -> & ->)].
    - now apply doRequest_serializationFails.
    - now apply doRequest_decodeFails. }
  assert (Hw : exists prefix cause, e = EWrap prefix cause).
  { destruct Hkind as [(cause & _ & -> & _)|(v' & cause & _ & -> & _)];
      eexists; eexists; reflexivity. }
  destruct Hw as (prefix & cause & He).
  assert (Hr : isRetryableError e = true) by (subst e; reflexivity).
  split; [exact Hd|]. split; [exact Hr|]. subst R s1 s2.
  split; [intros he; subst e; discriminate|]. split; [|split; [|split]].
  - intros HaR.
    rewrite (loop_last hc w method fullURL body _ _ _ _ _ _ HaR Ht Hd Hr).
    rewrite loop_exit by (rewrite incr_small; lia).
    rewrite (incr_small (RetryCount (config hc))) by lia. reflexivity.
  - intros Hlt Hdl.
    rewrite (loop_retry hc w method fullURL body _ _ _ _ _ _ Hlt Ht Hd Hr Hdl).
    rewrite (incr_small attempt) by lia. reflexivity.
  - intros Hlt r Hdl.
    rewrite (loop_delay_cancelled hc w method fullURL body _ _ _ _ _ _ _
               Hlt Ht Hd Hr Hdl).
    rewrite (incr_small attempt) by lia. reflexivity.
  - intros fuel' err s' Hl.
    apply loop_shape in Hl; [|lia|lia|intros Heq; lia].
    destruct Hl as ([Hn|[(r & Hc)|[(he & Hh & _)|(e' & Hx & _)]]] & _);
      subst err e; discriminate.
Qed.

Lemma serialization_and_decode_failures_retryable_witness :
  serializationFails (L := Demo.lib) (V := string) (Some "chan")
    "json: unsupported type: chan int" /\
  isRetryableError
    (EWrap "failed to marshal request body" "json: unsupported type: chan int")
    = true /\
  retryLoop (L := Demo.lib) (Demo.client 1) (Demo.always 200 "{}") "POST"
    "https://api.example.test/items" (Some "chan") 3 0 None (mkState None 0 []) =
  retryLoop (L := Demo.lib) (Demo.client 1) (Demo.always 200 "{}") "POST"
    "https://api.example.test/items" (Some "chan") 2 (0 + 1)
    (Some (EWrap "failed to marshal request body"
             "json: unsupported type: chan int"))
    (logged (LogRetrying "POST" "https://api.example.test/items" (0 + 1)
               (RetryDelay (config (Demo.client 1)))
               (EWrap "failed to marshal request body"
                  "json: unsupported type: chan int"))
       (mkState None 1 [])).
Proof.
  assert (Hs : serializationFails (L := Demo.lib) (V := string) (Some "chan")
                 "json: unsupported type: chan int").
  { exists "chan". split; reflexivity. }
  split; [exact Hs|].
  destruct (serialization_and_decode_failures_retryable string string Demo.lib
              (Demo.client 1) (Demo.always 200 "{}") "POST"
              "https://api.example.test/items" (Some "chan") 2 0 None
              (mkState None 0 [])
              (EWrap "failed to marshal request body"
                 "json: unsupported type: chan int") None)
    as (_ & Hr & _ & _ & Hnext & _).
  - cbn. unfold GoInt.min_int, GoInt.bits. lia.
  - cbn. unfold GoInt.max_int, GoInt.bits. lia.
  - reflexivity.
  - left. exists "json: unsupported type: chan int".
    split; [exact Hs|]. split; reflexivity.
  - split; [exact Hr|]. apply Hnext; [cbn; lia|reflexivity].
Defined.

(** ** Retry orchestrator: non-retryable failures, cancellation, success *)

(** C4. For every target that fails with a status the classifier does not
    retry (404, say) and every configured retry count R >= 0, the call
    invokes the executor exactly once and returns that attempt's CallError
    itself: same method, URL, status, message and duration, not wrapped. *)
Theorem non_retryable_short_circuit :
  forall (B V : Type) (L : Lib B V) (hc : httpClient) (w : World)
         (method url fullURL : string) (body : option B) (result : option V)
         (fuel : nat) (status : Z) (respBody : string) (duration : Z),
    let he := mkHTTPError method fullURL status respBody duration in
    0 <= RetryCount (config hc) ->
    buildURL (config hc) url = Ret fullURL ->
    w_token w 0 = Ready ->
    encodes body -> newRequest method fullURL = None ->
    w_do w 0 = DoResp status (ReadOk respBody) duration ->
    status < 200 \/ 300 <= status ->
    isRetryableError (EHTTP he) = false ->
    exists s',
      doRequestWithRetry hc w (S fuel) method url body result =
        Some (Ret (Some (EHTTP he), s')) /\
      calls s' = 1%nat /\ dest s' = result.
Proof.
  intros B V L hc w method url fullURL body result fuel status respBody duration
    he HR Hb Ht He Hn Hdo Hs Hnr.
  unfold doRequestWithRetry. rewrite Hb.
  assert (Hd : doRequest method fullURL body (dest (mkState result 0 []))
                 (w_do w 0) = (Some (EHTTP he), result)).
  { rewrite Hdo. now apply doRequest_status_error. }
  rewrite (loop_non_retryable hc w method fullURL body fuel 0 None _ _ _
             HR Ht Hd Hnr).
  eexists. split; [reflexivity|]. split; reflexivity.
Qed.

Lemma non_retryable_short_circuit_witness :
  exists s',
    doRequestWithRetry (L := Demo.lib) (Demo.client 3) (Demo.always 404 "not found")
      1 "GET" "/items/7" None (Some "") =
      Some (Ret (Some (EHTTP (mkHTTPError "GET" "https://api.example.test/items/7"
                                404 "not found" 5000000)), s')) /\
    calls s' = 1%nat /\ dest s' = Some "".
Proof.
  apply (non_retryable_short_circuit string string Demo.lib (Demo.client 3)
           (Demo.always 404 "not found") "GET" "/items/7"
           "https://api.example.test/items/7" None (Some "") 0 404 "not found"
           5000000).
  - cbn. lia.
  - reflexivity.
  - reflexivity.
  - exact I.
  - reflexivity.
  - reflexivity.
  - right. lia.
  - reflexivity.
Defined.

(** C5. At the loop test of any attempt the loop body is entered for: if
    the cancellation signal wins the wait for a token, the call returns the
    context's own error at once, with the state as it was (no executor
    invocation); if it wins the wait between attempts, after an attempt that
    failed retryably with retries left, the call returns the context's own
    error with that one attempt as the last executor invocation.  In both
    cases the error is not a CallError. *)
Theorem cancellation_aborts :
  forall (B V : Type) (L : Lib B V) (hc : httpClient) (w : World)
         (method fullURL : string) (body : option B) (fuel : nat)
         (attempt : Z) (lastErr : option error) (s : state) (r : ctxErr),
    attempt <= RetryCount (config hc) ->
    (w_token w attempt = CtxDone r ->
     retryLoop hc w method fullURL body (S fuel) attempt lastErr s =
       Some (Ret (Some (ECtx r), s))) /\
    (forall e result',
       w_token w attempt = Ready ->
       doRequest method fullURL body (dest s) (w_do w attempt) = (Some e, result') ->
       isRetryableError e = true ->
       attempt < RetryCount (config hc) ->
       w_delay w attempt = CtxDone r ->
       exists s',
         retryLoop hc w method fullURL body (S fuel) attempt lastErr s =
           Some (Ret (Some (ECtx r), s')) /\
         calls s' = S (calls s) /\ dest s' = result') /\
    (forall he, ECtx r <> EHTTP he).
Proof.
  intros B V L hc w method fullURL body fuel attempt lastErr s r Ha.
  split; [|split].
  - intros Ht. now apply loop_token_cancelled.
  - intros e result' Ht Hd Hr Hlt Hdl.
    rewrite (loop_delay_cancelled hc w method fullURL body fuel attempt lastErr
               s e result' r Hlt Ht Hd Hr Hdl).
    eexists. split; [reflexivity|]. split; reflexivity.
  - intros he. discriminate.
Qed.

Lemma cancellation_aborts_witness :
  (0 <= RetryCount (config (Demo.client 3))) /\
  Get (L := Demo.lib) (Demo.client 3) Demo.cancelledAtToken 1 "/items/7" (Some "") =
    Some (Ret (Some (ECtx Canceled), mkState (Some "") 0 [])) /\
  exists s',
    Get (L := Demo.lib) (Demo.client 3) Demo.cancelledAtDelay 1 "/items/7" (Some "") =
      Some (Ret (Some (ECtx DeadlineExceeded), s')) /\
    calls s' = 1%nat.
Proof.
  assert (Ha : 0 <= RetryCount (config (Demo.client 3))) by (cbn; lia).
  split; [exact Ha|]. split.
  - unfold Get, doRequestWithRetry.
    change (buildURL _ _) with (Ret "https://api.example.test/items/7").
    cbv beta iota.
    destruct (cancellation_aborts string string Demo.lib (Demo.client 3)
                Demo.cancelledAtToken "GET" "https://api.example.test/items/7"
                None 0 0 None (mkState (Some "") 0 []) Canceled Ha) as (Ht & _ & _).
    rewrite Ht; reflexivity.
  - unfold Get, doRequestWithRetry.
    change (buildURL _ _) with (Ret "https://api.example.test/items/7").
    cbv beta iota.
    destruct (cancellation_aborts string string Demo.lib (Demo.client 3)
                Demo.cancelledAtDelay "GET" "https://api.example.test/items/7"
                None 0 0 None (mkState (Some "") 0 []) DeadlineExceeded Ha)
      as (_ & Hd & _).
    destruct (Hd (EHTTP (mkHTTPError "GET" "https://api.example.test/items/7"
                           503 "" 5000000)) (Some ""))
      as (s' & Hl & Hc & _); try reflexivity.
    exists s'. rewrite Hl. split; [reflexivity|exact Hc].
Defined.

(** C10. For every attempt that receives a response with a 2xx status and
    an empty body while a destination was supplied, the executor returns nil
    and the destination holds what it held before, and the call returns
    success at that attempt. *)
Theorem empty_body_leaves_destination :
  forall (B V : Type) (L : Lib B V) (hc : httpClient) (w : World)
         (method fullURL : string) (body : option B) (fuel : nat)
         (attempt : Z) (lastErr : option error) (s : state)
         (v : V) (status duration : Z),
    attempt <= RetryCount (config hc) ->
    w_token w attempt = Ready ->
    encodes body -> newRequest method fullURL = None ->
    w_do w attempt = DoResp status (ReadOk "") duration ->
    200 <= status < 300 ->
    dest s = Some v ->
    doRequest method fullURL body (Some v) (w_do w attempt) = (None, Some v) /\
    exists s',
      retryLoop hc w method fullURL body (S fuel) attempt lastErr s =
        Some (Ret (None, s')) /\
      dest s' = Some v /\ calls s' = S (calls s).
Proof.
  intros B V L hc w method fullURL body fuel attempt lastErr s v status duration
    Ha Ht He Hn Hdo Hs Hv.
  assert (Hd : doRequest method fullURL body (Some v) (w_do w attempt)
               = (None, Some v)).
  { rewrite Hdo. now apply doRequest_empty_body. }
  split; [exact Hd|].
  rewrite <- Hv in Hd at 1.
  rewrite (loop_success hc w method fullURL body fuel attempt lastErr s _ Ha Ht Hd).
  eexists. split; [reflexivity|]. split; reflexivity.
Qed.

Lemma empty_body_leaves_destination_witness :
  doRequest (L := Demo.lib) "GET" "https://api.example.test/items/7" None
    (Some "before") (w_do (Demo.always 204 "") 0) = (None, Some "before") /\
  exists s',
    retryLoop (L := Demo.lib) (Demo.client 3) (Demo.always 204 "") "GET"
      "https://api.example.test/items/7" None 1 0 None
      (mkState (Some "before") 0 []) = Some (Ret (None, s')) /\
    dest s' = Some "before" /\ calls s' = 1%nat.
Proof.
  apply (empty_body_leaves_destination string string Demo.lib (Demo.client 3)
           (Demo.always 204 "") "GET" "https://api.example.test/items/7" None 0
           0 None (mkState (Some "before") 0 []) "before" 204 5000000).
  - cbn. lia.
  - reflexivity.
  - exact I.
  - reflexivity.
  - reflexivity.
  - lia.
  - reflexivity.
Defined.


(** * Further properties of the client *)


(** ** Whole calls *)

(** X1. A call whose first k attempts fail with errors the classifier
    retries, with the delay elapsing each time, and whose attempt k (k <= R)
    succeeds, returns nil after exactly k+1 executor invocations.  Its log
    is exactly: for each failed attempt i, in order, the retry entry with
    the attempt number i+1, the configured delay and the error of attempt i;
    then the success entry with the attempt number k+1. *)
Theorem retry_then_success :
  forall (B V : Type) (L : Lib B V) (hc : httpClient) (w : World)
         (method url fullURL : string) (body : option B) (result : option V)
         (fuel : nat) (k : Z),
    0 <= k <= RetryCount (config hc) ->
    k < GoInt.max_int ->
    buildURL (config hc) url = Ret fullURL ->
    (forall i, 0 <= i < k ->
       w_token w i = Ready /\ w_delay w i = Ready /\
       failsRetryably (V := V) method fullURL body (w_do w i)) ->
    w_token w k = Ready ->
    succeedsAt (V := V) method fullURL body (w_do w k) ->
    (Z.to_nat k + 1 <= fuel)%nat ->
    exists s' errs,
      doRequestWithRetry hc w fuel method url body result = Some (Ret (None, s')) /\
      Z.of_nat (calls s') = k + 1 /\
      Z.of_nat (List.length errs) = k /\
      (forall i e, nth_error errs i = Some e ->
         isRetryableError e = true /\
         exists result0,
           fst (doRequest method fullURL body result0 (w_do w (Z.of_nat i)))
             = Some e) /\
      log s' =
        (retryEntries method fullURL (RetryDelay (config hc)) 0 errs
           ++ [LogSuccess method fullURL (k + 1)])%list.
Proof.
  intros B V L hc w method url fullURL body result fuel k Hk Hmax Hb Hfail Ht Hok
    Hfuel.
  unfold doRequestWithRetry. rewrite Hb.
  destruct (loop_recovers hc w method fullURL body (Z.to_nat k) fuel 0 None
              (mkState result 0 []))
    as (s' & errs & Hl & Hc & Hlen & Herrs & Hlog).
  - unfold GoInt.min_int, GoInt.bits. lia.
  - lia.
  - lia.
  - intros i Hi. apply Hfail. lia.
  - now replace (0 + Z.of_nat (Z.to_nat k)) with k by lia.
  - now replace (0 + Z.of_nat (Z.to_nat k)) with k by lia.
  - exact Hfuel.
  - exists s', errs. split; [exact Hl|].
    split; [rewrite Hc; cbn [calls]; lia|]. split; [lia|]. split.
    + intros i e He. destruct (Herrs i e He) as (Hr & res & Hres).
      split; [exact Hr|]. exists res. exact Hres.
    + rewrite Hlog. cbn [log app]. repeat f_equal. lia.
Qed.

Lemma retry_then_success_witness :
  exists s' errs,
    doRequestWithRetry (L := Demo.lib) (Demo.client 3) (Scenario.failsThenOk 3) 4
      "GET" "/items/7" None (Some "") = Some (Ret (None, s')) /\
    Z.of_nat (calls s') = 3 + 1 /\
    Z.of_nat (List.length errs) = 3 /\
    (forall i e, nth_error errs i = Some e ->
       isRetryableError e = true /\
       exists result0,
         fst (doRequest (L := Demo.lib) "GET" "https://api.example.test/items/7"
                None result0 (w_do (Scenario.failsThenOk 3) (Z.of_nat i)))
           = Some e) /\
    log s' =
      (retryEntries "GET" "https://api.example.test/items/7"
         (RetryDelay (config (Demo.client 3))) 0 errs
         ++ [LogSuccess "GET" "https://api.example.test/items/7" (3 + 1)])%list.
Proof.
  apply (retry_then_success string string Demo.lib (Demo.client 3)
           (Scenario.failsThenOk 3) "GET" "/items/7"
           "https://api.example.test/items/7" None (Some "") 4 3).
  - cbn. lia.
  - unfold GoInt.max_int, GoInt.bits. lia.
  - reflexivity.
  - intros i Hi. split; [reflexivity|]. split; [reflexivity|].
    intros result0. cbn [w_do Scenario.failsThenOk].
    destruct (Z.ltb_spec i 3); [|lia].
    eexists. eexists. split; reflexivity.
  - reflexivity.
  - intros result0. destruct result0; reflexivity.
  - cbn. lia.
Defined.

(** X2. Whatever the target answers and whenever the caller cancels, a call
    with retry count R, 0 <= R below the largest [int], returns within R+2
    loop tests, having invoked the executor at most R+1 times. *)
Theorem call_returns_within_bound :
  forall (B V : Type) (L : Lib B V) (hc : httpClient) (w : World)
         (method url fullURL : string) (body : option B) (result : option V)
         (fuel : nat),
    let R := RetryCount (config hc) in
    0 <= R < GoInt.max_int ->
    buildURL (config hc) url = Ret fullURL ->
    (Z.to_nat R + 2 <= fuel)%nat ->
    exists err s',
      doRequestWithRetry hc w fuel method url body result = Some (Ret (err, s')) /\
      Z.of_nat (calls s') <= R + 1.
Proof.
  intros B V L hc w method url fullURL body result fuel R HR Hb Hfuel. subst R.
  assert (Hmin : GoInt.min_int <= 0) by (unfold GoInt.min_int, GoInt.bits; lia).
  unfold doRequestWithRetry. rewrite Hb.
  destruct (loop_returns hc w method fullURL body
              (Z.to_nat (RetryCount (config hc) + 1)) fuel 0 None
              (mkState result 0 [])) as [[err s'] Hl]; try lia.
  exists err, s'. rewrite Hl. split; [reflexivity|].
  apply loop_shape in Hl; try lia.
  destruct Hl as (_ & Hbound & _). cbn [calls] in Hbound. lia.
Qed.

Lemma call_returns_within_bound_witness :
  exists err s',
    doRequestWithRetry (L := Demo.lib) (Demo.client 3) Demo.cancelledAtDelay 5
      "GET" "/items/7" None (Some "") = Some (Ret (err, s')) /\
    Z.of_nat (calls s') <= 3 + 1.
Proof.
  apply (call_returns_within_bound string string Demo.lib (Demo.client 3)
           Demo.cancelledAtDelay "GET" "/items/7"
           "https://api.example.test/items/7" None (Some "") 5).
  - cbn. unfold GoInt.max_int, GoInt.bits. lia.
  - reflexivity.
  - cbn. lia.
Defined.

(** X3. Whatever the environment, the error a call returns (R >= 0 below
    the largest [int]) is nil, the context's error, a CallError the
    classifier does not retry, or the exhaustion error with count R+1 around
    an error the classifier retries; the exhaustion error comes only after
    exactly R+1 executor invocations.  So an error the classifier retries,
    and any error that is not a CallError, never reaches the caller bare. *)
Theorem returned_error_shape :
  forall (B V : Type) (L : Lib B V) (hc : httpClient) (w : World)
         (method url : string) (body : option B) (result : option V)
         (fuel : nat) (err : option error) (s' : state),
    let R := RetryCount (config hc) in
    0 <= R < GoInt.max_int ->
    doRequestWithRetry hc w fuel method url body result = Some (Ret (err, s')) ->
    terminal R err /\
    (isExhausted err -> Z.of_nat (calls s') = R + 1) /\
    (forall e, err = Some e -> isRetryableError e = true ->
       isExhausted err \/ exists r, e = ECtx r).
Proof.
  intros B V L hc w method url body result fuel err s' R HR H. subst R.
  assert (Hmin : GoInt.min_int <= 0) by (unfold GoInt.min_int, GoInt.bits; lia).
  unfold doRequestWithRetry in H.
  destruct (buildURL (config hc) url) as [fullURL|msg|]; try discriminate H.
  rename H into Hl.
  apply loop_shape in Hl; try lia.
  destruct Hl as (Ht & _ & Hx). cbn [calls] in Hx.
  split; [exact Ht|]. split; [intros He; specialize (Hx He); lia|].
  intros e -> Hr.
  destruct Ht as [Hn|[(r & Hc)|[(he & Hh & Hnr)|(e' & Hex & _)]]].
  - discriminate Hn.
  - right. exists r. congruence.
  - inversion Hh; subst. congruence.
  - left. now exists (RetryCount (config hc) + 1), (Some e').
Qed.

Lemma returned_error_shape_witness :
  terminal 3
    (Some (EHTTP (mkHTTPError "GET" "https://api.example.test/items/7" 404
                    "not found" 5000000))).
Proof.
  apply (returned_error_shape string string Demo.lib (Demo.client 3)
           (Demo.always 404 "not found") "GET" "/items/7" None (Some "") 1 _
           (logged (LogNonRetryable "GET" "https://api.example.test/items/7"
                      (EHTTP (mkHTTPError "GET" "https://api.example.test/items/7"
                                404 "not found" 5000000)))
              (mkState (Some "") 1 []))).
  - cbn. unfold GoInt.max_int, GoInt.bits. lia.
  - reflexivity.
Defined.



(** X5. A transport failure (no response received) on the first attempt
    ends the call there, for every retry count R >= 0: the executor's
    CallError with status 0 is classified as not retryable and returned as
    it is, after one executor invocation. *)
Theorem transport_failure_ends_call :
  forall (B V : Type) (L : Lib B V) (hc : httpClient) (w : World)
         (method url fullURL : string) (body : option B) (result : option V)
         (fuel : nat) (cause : string) (duration : Z),
    0 <= RetryCount (config hc) ->
    buildURL (config hc) url = Ret fullURL ->
    w_token w 0 = Ready ->
    encodes body -> newRequest method fullURL = None ->
    w_do w 0 = DoErr cause duration ->
    exists s',
      doRequestWithRetry hc w (S fuel) method url body result =
        Some (Ret (Some (EHTTP (mkHTTPError method fullURL 0 cause duration)), s')) /\
      calls s' = 1%nat /\ dest s' = result.
Proof.
  intros B V L hc w method url fullURL body result fuel cause duration
    HR Hb Ht He Hn Hdo.
  unfold doRequestWithRetry. rewrite Hb.
  assert (Hd : doRequest method fullURL body (dest (mkState result 0 []))
                 (w_do w 0)
               = (Some (EHTTP (mkHTTPError method fullURL 0 cause duration)),
                  result)).
  { rewrite Hdo. now rewrite doRequest_sends. }
  rewrite (loop_non_retryable hc w method fullURL body fuel 0 None _ _ _
             HR Ht Hd eq_refl).
  eexists. split; [reflexivity|]. split; reflexivity.
Qed.

Lemma transport_failure_ends_call_witness :
  exists s',
    doRequestWithRetry (L := Demo.lib) (Demo.client 3) Scenario.unreachable 1
      "GET" "/items/7" None (Some "") =
      Some (Ret (Some (EHTTP (mkHTTPError "GET" "https://api.example.test/items/7"
                                0 "dial tcp: connection refused" 1000000)), s')) /\
    calls s' = 1%nat /\ dest s' = Some "".
Proof.
  apply (transport_failure_ends_call string string Demo.lib (Demo.client 3)
           Scenario.unreachable "GET" "/items/7"
           "https://api.example.test/items/7" None (Some "") 0
           "dial tcp: connection refused" 1000000).
  - cbn. lia.
  - reflexivity.
  - reflexivity.
  - exact I.
  - reflexivity.
  - reflexivity.
Defined.

(** ** Executor *)

Section ExecutorProperties.

Context {B V : Type} {L : Lib B V}.

(** X6. The executor writes to the result destination only through
    [json.Unmarshal]: if the destination holds something else after
    [doRequest] than before, then a destination was supplied, the payload
    serialized, the request was created, and a response with a 2xx status
    and a non-empty body was read, which [json.Unmarshal] turned into the
    new content.  A nil destination stays nil. *)
Theorem doRequest_writes_only_on_decode :
  forall (method url : string) (body : option B) (result : option V)
         (net : doResult),
    snd (doRequest method url body result net) <> result ->
    encodes body /\ newRequest method url = None /\
    exists status respBody duration v,
      net = DoResp status (ReadOk respBody) duration /\
      200 <= status < 300 /\
      (0 < String.length respBody)%nat /\
      result = Some v /\
      snd (doRequest method url body result net)
        = Some (fst (unmarshal respBody v)).
Proof.
  intros method url body result net H.
  assert (He : encodes body).
  { destruct body as [b|]; [|exact I]. cbn [encodes].
    unfold doRequest in H. destruct (marshal b) as [bodyBytes|cause].
    - now exists bodyBytes.
    - now contradiction H. }
  assert (Hn : newRequest method url = None).
  { unfold doRequest in H.
    destruct (match body with
              | Some b => match marshal b with
                          | inl bodyBytes => inl (Some bodyBytes)
                          | inr cause => inr cause
                          end
              | None => inl None
              end); [|now contradiction H].
    destruct (newRequest method url); [now contradiction H|reflexivity]. }
  split; [exact He|]. split; [exact Hn|].
  rewrite (doRequest_sends method url body result net He Hn) in *.
  destruct net as [cause d|status [respBody|cause] d]; try now contradiction H.
  destruct (Z.ltb_spec status 200); [now contradiction H|].
  destruct (Z.leb_spec 300 status); [now contradiction H|]. cbn [orb] in *.
  destruct result as [v|]; [|now contradiction H].
  destruct (Z.ltb_spec 0 (Z.of_nat (String.length respBody)));
    [|now contradiction H].
  exists status, respBody, d, v.
  repeat (split; [first [reflexivity|lia]|]).
  destruct (unmarshal respBody v) as [v' [cause|]]; reflexivity.
Qed.

(** X7. The executor returns nil exactly when the payload serialized, the
    request was created, a response with a 2xx status was read in full, and
    either no destination was supplied, or the body was empty, or
    [json.Unmarshal] accepted the body. *)
Theorem doRequest_nil_iff :
  forall (method url : string) (body : option B) (result : option V)
         (net : doResult),
    fst (doRequest method url body result net) = None <->
    encodes body /\ newRequest method url = None /\
    exists status respBody duration,
      net = DoResp status (ReadOk respBody) duration /\
      200 <= status < 300 /\
      (result = None \/ respBody = "" \/
       exists v, result = Some v /\ snd (unmarshal respBody v) = None).
Proof.
  intros method url body result net. split.
  - intros H.
    assert (He : encodes body).
    { destruct body as [b|]; [|exact I]. cbn [encodes].
      unfold doRequest in H. destruct (marshal b) as [bodyBytes|cause].
      - now exists bodyBytes.
      - discriminate H. }
    assert (Hn : newRequest method url = None).
    { unfold doRequest in H.
      destruct (match body with
                | Some b => match marshal b with
                            | inl bodyBytes => inl (Some bodyBytes)
                            | inr cause => inr cause
                            end
                | None => inl None
                end); [|discriminate H].
      destruct (newRequest method url); [discriminate H|reflexivity]. }
    split; [exact He|]. split; [exact Hn|].
    rewrite (doRequest_sends method url body result net He Hn) in H.
    destruct net as [cause d|status [respBody|cause] d]; try discriminate H.
    destruct (Z.ltb_spec status 200); [discriminate H|].
    destruct (Z.leb_spec 300 status); [discriminate H|]. cbn [orb] in H.
    exists status, respBody, d. split; [reflexivity|]. split; [lia|].
    destruct result as [v|]; [|now left]. right.
    destruct respBody as [|c rest]; [now left|]. right.
    exists v. split; [reflexivity|].
    cbn [String.length] in H.
    destruct (Z.ltb_spec 0 (Z.of_nat (S (String.length rest)))); [|lia].
    destruct (unmarshal (String c rest) v) as [v' [cause|]];
      [discriminate H|reflexivity].
  - intros (He & Hn & status & respBody & d & -> & Hs & Hcase).
    rewrite (doRequest_sends method url body result _ He Hn).
    destruct (Z.ltb_spec status 200); [lia|].
    destruct (Z.leb_spec 300 status); [lia|]. cbn [orb].
    destruct result as [v|]; [|reflexivity].
    destruct Hcase as [Hnone|[->|(v0 & Hv & Hu)]].
    + discriminate Hnone.
    + reflexivity.
    + inversion Hv; subst v0.
      destruct (0 <? Z.of_nat (String.length respBody)); [|reflexivity].
      destruct (unmarshal respBody v) as [v' o]. cbn [snd] in Hu. now subst o.
Qed.

End ExecutorProperties.

Lemma doRequest_writes_only_on_decode_witness :
  snd (doRequest (L := Demo.lib) "GET" "https://api.example.test/items/7" None
         (Some "before") (DoResp 200 (ReadOk "7") 5000000)) = Some "7".
Proof.
  destruct (doRequest_writes_only_on_decode (L := Demo.lib) "GET"
              "https://api.example.test/items/7" None (Some "before")
              (DoResp 200 (ReadOk "7") 5000000))
    as (_ & _ & status & respBody & d & v & Hnet & _ & _ & Hres & Hsnd).
  - discriminate.
  - inversion Hnet; subst. inversion Hres; subst. exact Hsnd.
Defined.

(** ** Token bucket: schedules *)

Lemma refillTick_len (c : chan) :
  within c ->
  within (refillTick c) /\ cap (refillTick c) = cap c /\
  len c <= len (refillTick c) <= len c + 1.
Proof.
  unfold within, refillTick, send. intros H.
  destruct (Z.ltb_spec (len c) (cap c)); cbn [cap len]; lia.
Qed.

Lemma recv_len (c c' : chan) :
  within c -> recv c = Some c' ->
  within c' /\ cap c' = cap c /\ len c' = len c - 1.
Proof.
  unfold within, recv. intros H Hr.
  destruct (Z.ltb_spec 0 (len c)); [|discriminate Hr].
  inversion Hr; subst. cbn [cap len]. lia.
Qed.

Lemma ticks_cons_tick evs : ticks (Tick :: evs) = ticks evs + 1.
Proof. unfold ticks. cbn [filter isTick List.length]. lia. Qed.

Lemma ticks_cons_acquire evs : ticks (Acquire :: evs) = ticks evs.
Proof. reflexivity. Qed.

Lemma acquisitions_cons_tick evs : acquisitions (Tick :: evs) = acquisitions evs.
Proof. reflexivity. Qed.

Lemma acquisitions_cons_acquire evs :
  acquisitions (Acquire :: evs) = acquisitions evs + 1.
Proof. unfold acquisitions. cbn [filter isTick negb List.length]. lia. Qed.

(** Tokens are neither lost by an acquisition nor counted twice by a tick:
    what is left plus what was taken is at most what was there plus the
    ticks. *)
Lemma runLimiter_balance (evs : list limiterEvent) :
  forall c c',
    within c -> runLimiter evs c = Some c' ->
    within c' /\ cap c' = cap c /\
    len c' + acquisitions evs <= len c + ticks evs.
Proof.
  induction evs as [|[|] evs IH]; intros c c' Hw H.
  - inversion H; subst. split; [assumption|]. split; [reflexivity|].
    unfold acquisitions, ticks. cbn. lia.
  - cbn [runLimiter] in H.
    destruct (refillTick_len c Hw) as (Hw' & Hc & Hl).
    destruct (IH _ _ Hw' H) as (Hw'' & Hc' & Hb).
    rewrite ticks_cons_tick, acquisitions_cons_tick.
    split; [assumption|]. split; [congruence|lia].
  - cbn [runLimiter] in H. destruct (recv c) as [c1|] eqn:Hr; [|discriminate H].
    destruct (recv_len c c1 Hw Hr) as (Hw' & Hc & Hl).
    destruct (IH _ _ Hw' H) as (Hw'' & Hc' & Hb).
    rewrite ticks_cons_acquire, acquisitions_cons_acquire.
    split; [assumption|]. split; [congruence|lia].
Qed.

Lemma runLimiter_app (pre : list limiterEvent) :
  forall window c c',
    runLimiter (pre ++ window) c = Some c' ->
    exists c1, runLimiter pre c = Some c1 /\ runLimiter window c1 = Some c'.
Proof.
  induction pre as [|[|] pre IH]; intros window c c' H.
  - exists c. split; [reflexivity|exact H].
  - cbn [app runLimiter] in *. now apply IH.
  - cbn [app runLimiter] in *. destruct (recv c) as [c1|]; [|discriminate H].
    now apply IH.
Qed.

(** X8. Rate bound of the token pool.  In every schedule in which each
    acquisition finds a token, and in every window of such a schedule
    however long it ran before, the number of acquisitions is at most the
    rate limit N plus the number of refill ticks of that window. *)
Theorem acquisitions_bounded_by_ticks :
  forall (cfg : Config) (hc : httpClient)
         (before window : list limiterEvent) (c' : chan),
    New cfg = Ret hc ->
    runLimiter (before ++ window) (rateLimiter hc) = Some c' ->
    acquisitions window <= RateLimit cfg + ticks window.
Proof.
  intros cfg hc before window c' HN H.
  destruct (New_inv _ _ HN) as [Hpos ->]. cbn [rateLimiter] in H.
  destruct (runLimiter_app _ _ _ _ H) as (c1 & Hpre & Hwin).
  assert (Hw0 : within (mkChan (RateLimit cfg) (RateLimit cfg)))
    by (unfold within; cbn; lia).
  destruct (runLimiter_balance _ _ _ Hw0 Hpre) as (Hw1 & Hc1 & _).
  destruct (runLimiter_balance _ _ _ Hw1 Hwin) as (Hw' & _ & Hb).
  unfold within in *. cbn [cap] in Hc1. lia.
Qed.

Lemma acquisitions_bounded_by_ticks_witness :
  acquisitions [Acquire; Acquire; Tick; Acquire] <= RateLimit (Demo.cfg 3 2)
    + ticks [Acquire; Acquire; Tick; Acquire] /\
  runLimiter [Acquire; Acquire; Acquire] (rateLimiter (Demo.client 3)) = None.
Proof.
  split; [|reflexivity].
  apply (acquisitions_bounded_by_ticks (Demo.cfg 3 2) (Demo.client 3) []
           [Acquire; Acquire; Tick; Acquire] (mkChan 2 0)); reflexivity.
Defined.

(** X9. For a rate limit N >= 1 the refill goroutine's ticker period is
    the whole number of nanoseconds d with d*N <= 1s < (d+1)*N when N is at
    most one billion; above one billion the division gives 0 and
    [time.NewTicker] panics. *)
Theorem refillInterval_period :
  forall N : Z,
    1 <= N ->
    match refillInterval N with
    | Ret d => N <= second /\ 1 <= d /\ d * N <= second < (d + 1) * N
    | Panic msg => second < N /\ msg = "non-positive interval for NewTicker"
    | Block => False
    end.
Proof.
  intros N HN. unfold refillInterval.
  destruct (Z.eqb_spec N 0); [lia|].
  rewrite Z.quot_div_nonneg by (unfold second; lia).
  pose proof (Z.div_mod second N ltac:(lia)) as Hdm.
  pose proof (Z.mod_pos_bound second N ltac:(lia)) as Hmod.
  destruct (Z.leb_spec (second / N) 0) as [Hz|Hp].
  - split; [|reflexivity].
    assert (0 <= second / N) by (apply Z.div_pos; unfold second; lia). nia.
  - split; [|split]; nia.
Qed.

Lemma refillInterval_period_witness :
  refillInterval 2 = Ret 500000000 /\
  refillInterval 3 = Ret 333333333 /\
  refillInterval (second + 1) = Panic "non-positive interval for NewTicker".
Proof.
  assert (H : forall N d, 1 <= N -> 1 <= d -> d * N <= second < (d + 1) * N ->
                          refillInterval N = Ret d).
  { intros N d HN H1 Hd. pose proof (refillInterval_period N HN) as Hp.
    destruct (refillInterval N) as [d'|msg|]; [|nia|contradiction].
    f_equal. nia. }
  split; [apply H; unfold second; lia|].
  split; [apply H; unfold second; lia|reflexivity].
Defined.

(** X10. The constructor panics exactly for a negative rate limit (in
    [make]); for every other rate limit N it returns, never blocking in the
    fill loop, a client whose pool has capacity N and holds N tokens. *)
Theorem New_panics_iff_negative :
  forall cfg : Config,
    New cfg =
      if RateLimit cfg <? 0 then Panic "makechan: size out of range"
      else Ret (mkClient cfg (mkChan (RateLimit cfg) (RateLimit cfg))).
Proof.
  intros cfg. destruct (Z.ltb_spec (RateLimit cfg) 0).
  - now apply New_negative.
  - now apply New_Ret.
Qed.

(** ** URL building, continued *)

Lemma append_assoc_string (a b c : string) : (a ++ b) ++ c = a ++ (b ++ c).
Proof. induction a as [|x a IH]; cbn; [reflexivity|now rewrite IH]. Qed.

Lemma append_nonempty (a : string) (x : ascii) (b : string) :
  a ++ String x b <> "".
Proof. destruct a; discriminate. Qed.

(** X12. [buildURL] does not look at the end of the base URL: a base URL
    that ends with a slash joined with a path that starts with one gives a
    URL with two slashes at the joint. *)
Theorem buildURL_keeps_trailing_slash :
  forall (cfg : Config) (base rest : string),
    BaseURL cfg = base ++ "/" ->
    buildURL cfg ("/" ++ rest) = Ret (base ++ "//" ++ rest).
Proof.
  intros cfg base rest Hb.
  rewrite buildURL_nonempty_path by discriminate.
  unfold spec_fullURL. rewrite Hb.
  destruct (String.eqb_spec (base ++ "/") "") as [He|_].
  - now destruct (append_nonempty base "/"%char "" He).
  - cbn [dropLeadingSlash append Ascii.eqb Bool.eqb]. cbn.
    rewrite append_assoc_string. reflexivity.
Qed.

Lemma buildURL_keeps_trailing_slash_witness :
  buildURL (mkConfig "https://api.example.test/" 0 3 0 2) "/items/7" =
    Ret "https://api.example.test//items/7".
Proof.
  apply (buildURL_keeps_trailing_slash
           (mkConfig "https://api.example.test/" 0 3 0 2)
           "https://api.example.test" "items/7").
  reflexivity.
Defined.

(** X11. For every non-empty path [buildURL] returns, without panicking,
    the path itself when the base URL is empty, and otherwise the base URL,
    one slash, and the path without its leading slash if it has one: a path
    gives the same URL with and without a leading slash. *)
Theorem buildURL_joins_nonempty_path :
  forall (cfg : Config) (path : string),
    path <> "" ->
    buildURL cfg path = Ret (spec_fullURL (BaseURL cfg) path) /\
    (BaseURL cfg <> "" -> (forall rest, path <> "/" ++ rest) ->
     buildURL cfg ("/" ++ path) = buildURL cfg path).
Proof.
  intros cfg path Hp. split; [now apply buildURL_nonempty_path|].
  intros Hb Hns. destruct path as [|c rest]; [contradiction|].
  destruct (Ascii.eqb_spec c "/"%char) as [->|Hc].
  - now destruct (Hns rest).
  - rewrite !buildURL_nonempty_path by discriminate.
    unfold spec_fullURL. destruct (String.eqb_spec (BaseURL cfg) "");
      [contradiction|].
    cbn [append dropLeadingSlash]. cbn.
    destruct (Ascii.eqb_spec c "/"%char); [contradiction|reflexivity].
Qed.

Lemma buildURL_joins_nonempty_path_witness :
  buildURL (Demo.cfg 3 2) "items/7" = Ret "https://api.example.test/items/7" /\
  buildURL (Demo.cfg 3 2) "/items/7" = Ret "https://api.example.test/items/7".
Proof.
  destruct (buildURL_joins_nonempty_path (Demo.cfg 3 2) "items/7")
    as [Hjoin Hslash]; [discriminate|].
  split; [exact Hjoin|].
  change "/items/7" with ("/" ++ "items/7"). rewrite Hslash; [exact Hjoin| |].
  - discriminate.
  - intros rest. discriminate.
Defined.

(** * Domain records *)

(** X13. [Validate] accepts a post exactly when its ID and its user ID are
    positive and its title and its source are not empty; the body is not
    looked at. *)
Theorem Validate_nil_iff :
  forall p : Models.Post,
    Models.Validate p = None <->
    0 < Models.ID p /\ 0 < Models.UserID p /\
    Models.Title p <> "" /\ Models.Source p <> "".
Proof.
  intros p. unfold Models.Validate.
  destruct (Z.leb_spec (Models.ID p) 0) as [Hi|Hi],
    (Z.leb_spec (Models.UserID p) 0) as [Hu|Hu],
    (String.eqb_spec (Models.Title p) "") as [Ht|Ht],
    (String.eqb_spec (Models.Source p) "") as [Hs|Hs];
    (split; intros H);
    try discriminate H; try reflexivity;
    try (repeat match goal with |- _ /\ _ => split end; first [lia|assumption]);
    try (exfalso; repeat match goal with H0 : _ /\ _ |- _ => destruct H0 end;
         first [lia|contradiction]).
Qed.

(** X14. [Validate] reports the first failing check in the order ID, user
    ID, title, source: each error is returned exactly when its own check
    fails and all the checks before it pass. *)
Theorem Validate_first_failure :
  forall p : Models.Post,
    (Models.Validate p = Some Models.ErrInvalidPostID <-> Models.ID p <= 0) /\
    (Models.Validate p = Some Models.ErrInvalidUserID <->
     0 < Models.ID p /\ Models.UserID p <= 0) /\
    (Models.Validate p = Some Models.ErrEmptyTitle <->
     0 < Models.ID p /\ 0 < Models.UserID p /\ Models.Title p = "") /\
    (Models.Validate p = Some Models.ErrEmptySource <->
     0 < Models.ID p /\ 0 < Models.UserID p /\ Models.Title p <> "" /\
     Models.Source p = "").
Proof.
  intros p. unfold Models.Validate.
  destruct (Z.leb_spec (Models.ID p) 0) as [Hi|Hi],
    (Z.leb_spec (Models.UserID p) 0) as [Hu|Hu],
    (String.eqb_spec (Models.Title p) "") as [Ht|Ht],
    (String.eqb_spec (Models.Source p) "") as [Hs|Hs];
    (split; [split; intros H
            |split; [split; intros H
                    |split; [split; intros H|split; intros H]]]);
    try discriminate H; try reflexivity;
    try (repeat match goal with |- _ /\ _ => split end; first [lia|assumption]);
    try (exfalso; repeat match goal with H0 : _ /\ _ |- _ => destruct H0 end;
         first [lia|contradiction]).
Qed.

(** X15. A post converted from an API response keeps the response's ID,
    user ID, title and body, is stamped with the current instant presented
    in UTC, and carries the source "placeholder_api"; it validates exactly
    when the response's ID and user ID are positive and its title is not
    empty, and is never rejected for an empty source. *)
Theorem ToPost_Validate :
  forall (now : Models.Time) (pr : Models.PostResponse),
    let p := Models.ToPost now pr in
    (Models.ID p, Models.UserID p, Models.Title p, Models.Body p)
      = (Models.pr_ID pr, Models.pr_UserID pr, Models.pr_Title pr,
         Models.pr_Body pr) /\
    Models.unixNano (Models.IngestedAt p) = Models.unixNano now /\
    Models.location (Models.IngestedAt p) = "UTC" /\
    Models.Source p = "placeholder_api" /\
    (Models.Validate p = None <->
     0 < Models.pr_ID pr /\ 0 < Models.pr_UserID pr /\ Models.pr_Title pr <> "") /\
    Models.Validate p <> Some Models.ErrEmptySource.
Proof.
  intros now pr p. split; [reflexivity|]. split; [reflexivity|].
  split; [reflexivity|]. split; [reflexivity|].
  subst p. unfold Models.Validate, Models.ToPost.
  cbn [Models.ID Models.UserID Models.Title Models.Source].
  destruct (Z.leb_spec (Models.pr_ID pr) 0) as [Hi|Hi],
    (Z.leb_spec (Models.pr_UserID pr) 0) as [Hu|Hu],
    (String.eqb_spec (Models.pr_Title pr) "") as [Ht|Ht];
    cbn [String.eqb];
    (split; [split; intros H|intros H]);
    try discriminate H; try reflexivity;
    try (repeat match goal with |- _ /\ _ => split end; first [lia|assumption]);
    try (exfalso; repeat match goal with H0 : _ /\ _ |- _ => destruct H0 end;
         first [lia|contradiction]).
Qed.

(** X16. The three classifications of a status as temporary, the one of
    [APIError], the one of [HTTPError] and the client's [isRetryableError]
    on a CallError, are the same function of the status: true exactly for
    500 and above, 429 and 408. *)
Theorem temporary_classifiers_agree :
  forall (status : Z) (message url method cause : string) (duration : Z),
    let he := mkHTTPError method url status cause duration in
    Models.IsTemporary (Models.NewAPIError status message url) = IsTemporary he /\
    IsTemporary he = isRetryableError (EHTTP he) /\
    (Models.IsTemporary (Models.NewAPIError status message url) = true <->
     500 <= status \/ status = 429 \/ status = 408).
Proof.
  intros status message url method cause duration he.
  split; [reflexivity|]. split; [reflexivity|].
  change (Models.IsTemporary (Models.NewAPIError status message url))
    with (isRetryableError (EHTTP he)).
  rewrite isRetryableError_HTTP. reflexivity.
Qed.

(** * Structured logging *)

Lemma find_snoc {A : Type} (p : A -> bool) (l : list A) (x : A) :
  find p (l ++ [x]) =
    match find p l with
    | Some y => Some y
    | None => if p x then Some x else None
    end.
Proof.
  induction l as [|y l IH]; cbn; [reflexivity|].
  destruct (p y); [reflexivity|exact IH].
Qed.

Lemma fold_setField_lookup {Val : Type} (fields : list (Logger.Field Val)) :
  forall (m : Logger.Fields Val) (k : string),
    fold_left (fun m field =>
                 Logger.setField m (Logger.Key field) (Logger.Value field))
      fields m k =
    match find (fun field => String.eqb k (Logger.Key field)) (rev fields) with
    | Some field => Some (Logger.Value field)
    | None => m k
    end.
Proof.
  induction fields as [|f fields IH]; intros m k; [reflexivity|].
  cbn [fold_left rev]. rewrite IH, find_snoc.
  destruct (find _ (rev fields)); [reflexivity|].
  unfold Logger.setField. destruct (String.eqb k (Logger.Key f)); reflexivity.
Qed.

(** X17. In the field map a logging call builds, each key holds the value
    of the last field given with that key, and a key no field has is
    absent. *)
Theorem toFields_last_wins :
  forall (Val : Type) (fields : list (Logger.Field Val)) (k : string),
    Logger.toFields fields k =
    match find (fun field => String.eqb k (Logger.Key field)) (rev fields) with
    | Some field => Some (Logger.Value field)
    | None => None
    end.
Proof.
  intros Val fields k. unfold Logger.toFields. now rewrite fold_setField_lookup.
Qed.

(** X18. When at least one field is given, the five logging methods do the
    same thing: each logs the message with the field map at the level the
    logger is configured with, not at the level the method is named after;
    the entry method of the method's own level is called only when no field
    is given. *)
Theorem fields_override_method_level :
  forall (Val : Type) (l : Logger.logrusLogger) (msg : string)
         (fields : list (Logger.Field Val)),
    fields <> [] ->
    let logged := Logger.LogCall (Logger.toFields fields) (Logger.level l) msg in
    Logger.Debug l msg fields = logged /\
    Logger.Info l msg fields = logged /\
    Logger.Warn l msg fields = logged /\
    Logger.Error l msg fields = logged /\
    Logger.Fatal l msg fields = logged /\
    Logger.Fatal (Val := Val) l msg [] = Logger.LevelCall Logger.FatalLevel msg.
Proof.
  intros Val l msg fields Hne logged.
  destruct fields as [|f fields]; [contradiction|].
  repeat split; reflexivity.
Qed.

Lemma fields_override_method_level_witness :
  Logger.Debug (Logger.New "error" "json") "HTTP request successful"
    [Logger.String "method" "GET"; Logger.Int "attempt" 1] =
  Logger.LogCall
    (Logger.toFields [Logger.String "method" "GET"; Logger.Int "attempt" 1])
    Logger.ErrorLevel "HTTP request successful".
Proof.
  apply (fields_override_method_level Logger.scalar (Logger.New "error" "json")
           "HTTP request successful"
           [Logger.String "method" "GET"; Logger.Int "attempt" 1]).
  discriminate.
Defined.

(** * Migrations *)

(** X19. [applyMigration] keeps to its transaction: a version found
    already recorded returns nil without beginning a transaction; nothing is
    committed unless both statements succeeded; whenever a transaction was
    begun the deferred rollback is the last thing done; and nil is returned
    exactly when the version was already recorded or the count, the begin,
    both statements and the commit all succeeded. *)
Theorem applyMigration_transaction :
  forall (a : Database.Answers) (migration : Database.Migration),
    let err := fst (Database.applyMigration a migration) in
    let done := snd (Database.applyMigration a migration) in
    ((exists count, Database.scanCount a (Database.Version migration) = inr count
                    /\ 0 < count) ->
     err = None /\ ~ In Database.OpBeginTx done) /\
    (In Database.OpCommit done ->
     Database.txExec a 0%nat = None /\ Database.txExec a 1%nat = None) /\
    (Database.beginTx a = None -> In Database.OpBeginTx done ->
     last done Database.OpBeginTx = Database.OpRollback) /\
    (err = None <->
     exists count,
       Database.scanCount a (Database.Version migration) = inr count /\
       (0 < count \/
        Database.beginTx a = None /\ Database.txExec a 0%nat = None /\
        Database.txExec a 1%nat = None /\ Database.commit a = None)).
Proof.
  intros a migration err done. subst err done. unfold Database.applyMigration.
  destruct (Database.scanCount a (Database.Version migration)) as [e|count].
  - cbn [fst snd]. split; [intros (c & Hc & _); discriminate Hc|].
    split; [intros [H|[H|[]]]; discriminate H|].
    split; [intros _ [H|[H|[]]]; discriminate H|].
    split; [discriminate|]. intros (c & Hc & _). discriminate Hc.
  - destruct (Z.ltb_spec 0 count) as [Hpos|Hnp].
    + cbn [fst snd app]. split.
      * intros _. split; [reflexivity|].
        intros [H|[H|[H|[]]]]; discriminate H.
      * split; [intros [H|[H|[H|[]]]]; discriminate H|].
        split; [intros _ [H|[H|[H|[]]]]; discriminate H|].
        split; [intros _; exists count; split; [reflexivity|now left]|reflexivity].
    + destruct (Database.beginTx a) as [eb|];
        [|destruct (Database.txExec a 0%nat) as [e0|];
          [|destruct (Database.txExec a 1%nat) as [e1|];
            [|destruct (Database.commit a) as [ec|]]]];
        cbn [fst snd app last];
        (split; [intros (c & Hc & Hp); inversion Hc; subst; lia|]);
        (split; [intros H; cbn in H;
                 repeat (destruct H as [H|H]; try discriminate H);
                 try contradiction; split; reflexivity|]);
        (split; [intros Hb _; first [discriminate Hb|reflexivity]|]);
        (split;
         [intros H;
          first [discriminate H
                |exists count; split; [reflexivity|]; right; repeat split;
                 reflexivity]
         |intros (c & Hc & [Hp|(H1 & H2 & H3 & H4)]);
          [inversion Hc; subst; lia
          |first [discriminate H1|discriminate H2|discriminate H3
                 |discriminate H4|reflexivity]]]).
Qed.

(** * Further properties of the orchestrator and of the pool *)

Section DelayIndependence.

Context {B V : Type} {L : Lib B V}.

Variable hc : httpClient.
Variables w w' : World.
Variables method fullURL : string.
Variable body : option B.

Hypothesis same_token : forall i, w_token w' i = w_token w i.
Hypothesis same_do : forall i, w_do w' i = w_do w i.
Hypothesis same_delay :
  forall i, i < RetryCount (config hc) -> w_delay w' i = w_delay w i.

Lemma loop_ignores_last_delay (fuel : nat) :
  forall attempt lastErr s,
    retryLoop hc w' method fullURL body fuel attempt lastErr s =
    retryLoop hc w method fullURL body fuel attempt lastErr s.
Proof.
  induction fuel as [|fuel IH]; intros attempt lastErr s; [reflexivity|].
  cbn [retryLoop]. rewrite same_token, same_do.
  destruct (attempt <=? RetryCount (config hc)); [|reflexivity].
  destruct (w_token w attempt); [|reflexivity].
  destruct (doRequest method fullURL body (dest s) (w_do w attempt))
    as [[e|] result']; [|reflexivity].
  destruct (negb (isRetryableError e)); [reflexivity|].
  destruct (Z.ltb_spec attempt (RetryCount (config hc))) as [Hlt|Hge].
  - rewrite (same_delay _ Hlt). destruct (w_delay w attempt); [apply IH|reflexivity].
  - apply IH.
Qed.

End DelayIndependence.

(** X20. Nothing is waited for after the last attempt: two environments
    that differ only in what the inter-attempt wait would resolve to at
    attempts from R on give the same call, whatever the fuel.  A
    cancellation that arrives after the last attempt has failed is not
    seen: the call returns the exhaustion error. *)
Theorem no_delay_after_last_attempt :
  forall (B V : Type) (L : Lib B V) (hc : httpClient) (w w' : World)
         (method url : string) (body : option B) (result : option V)
         (fuel : nat),
    (forall i, w_token w' i = w_token w i) ->
    (forall i, w_do w' i = w_do w i) ->
    (forall i, i < RetryCount (config hc) -> w_delay w' i = w_delay w i) ->
    doRequestWithRetry hc w' fuel method url body result =
    doRequestWithRetry hc w fuel method url body result.
Proof.
  intros B V L hc w w' method url body result fuel Ht Hd Hdl.
  unfold doRequestWithRetry.
  destruct (buildURL (config hc) url) as [fullURL|msg|]; try reflexivity.
  now rewrite (loop_ignores_last_delay hc w w' method fullURL body Ht Hd Hdl).
Qed.

Lemma no_delay_after_last_attempt_witness :
  exists s',
    doRequestWithRetry (L := Demo.lib) (Demo.client 1)
      (mkWorld (fun _ => Ready) (fun _ => DoResp 503 (ReadOk "") 5000000)
         (fun i => if i <? 1 then Ready else CtxDone Canceled))
      3 "GET" "/items/7" None None =
      Some (Ret (Some (EExhausted 2
                         (Some (EHTTP (mkHTTPError "GET"
                                         "https://api.example.test/items/7" 503
                                         "" 5000000)))), s')).
Proof.
  rewrite (no_delay_after_last_attempt string string Demo.lib (Demo.client 1)
             (Demo.always 503 "")
             (mkWorld (fun _ => Ready) (fun _ => DoResp 503 (ReadOk "") 5000000)
                (fun i => if i <? 1 then Ready else CtxDone Canceled))
             "GET" "/items/7" None None 3).
  - eexists. reflexivity.
  - reflexivity.
  - reflexivity.
  - intros i Hi. cbn [w_delay Demo.always]. cbn in Hi.
    destruct (Z.ltb_spec i 1); [reflexivity|lia].
Defined.

(** X21. Ticks and acquisitions compose: in a pool of capacity at least 1
    an acquisition can always proceed right after a tick, so a waiting call
    is admitted after one tick at most; and a tick right after an
    acquisition gives back the pool as it was before the acquisition. *)
Theorem tick_then_acquire :
  forall c : chan,
    within c ->
    (0 < cap c -> exists c', recv (refillTick c) = Some c') /\
    (forall c', recv c = Some c' -> refillTick c' = c).
Proof.
  intros c Hw. unfold within in Hw. split.
  - intros Hcap. unfold refillTick, send, recv.
    destruct (Z.ltb_spec (len c) (cap c)); cbn [cap len].
    + destruct (Z.ltb_spec 0 (len c + 1)); [|lia]. eexists. reflexivity.
    + destruct (Z.ltb_spec 0 (len c)); [|lia]. eexists. reflexivity.
  - intros c' Hr. unfold recv in Hr.
    destruct (Z.ltb_spec 0 (len c)); [|discriminate Hr].
    inversion Hr; subst. unfold refillTick, send. cbn [cap len].
    destruct (Z.ltb_spec (len c - 1) (cap c)); [|lia].
    destruct c as [n l]. cbn [cap len]. f_equal. lia.
Qed.

Lemma tick_then_acquire_witness :
  (exists c', recv (refillTick (mkChan 2 0)) = Some c') /\
  refillTick (mkChan 2 1) = mkChan 2 2.
Proof.
  destruct (tick_then_acquire (mkChan 2 0)) as (Hacq & _);
    [unfold within; cbn; lia|].
  destruct (tick_then_acquire (mkChan 2 2)) as (_ & Hback);
    [unfold within; cbn; lia|].
  split; [apply Hacq; cbn; lia|apply Hback; reflexivity].
Defined.
